(** * nxhttp: the CGI gateway, its request context and processor chain

    A shallow embedding of the parts of the Go package [nxhttp] that the
    specification makes promises about:

    - [context.go]   : [NxContext] (route parameters, the [stopped] flag,
                       the response writer),
    - the processor source : [DefaultProcessor] and its timeout,
    - [entry.go]     : [BaseEntry.SetTimeout] over a processor chain,
    - [cgi.go]       : [CgiProcessor.Process]: environment assembly and the
                       stdout goroutine that turns CGI output into a response.
                       The file holds two revisions; the later one is
                       modelled (case-insensitive [Status], [HTTP_] variables,
                       [CONTENT_LENGTH], the [IsStopped] checks and the guard
                       before the first body write are its additions).

    Go strings and byte slices are sequences of bytes; both are modelled by
    [string] (a list of 8-bit [ascii]).  Go [int] is modelled by [Z]; no
    arithmetic that could wrap is performed on the values involved.  A run
    time panic (index out of range) is an explicit outcome. *)

From Stdlib Require Import ZArith Lia Bool List Ascii String.
From Stdlib Require Import Numbers.DecimalString Numbers.DecimalPos.
From stdpp Require Import base option list gmap strings.

Import ListNotations.
Local Open Scope string_scope.
Local Open Scope list_scope.
Local Open Scope stdpp_scope.
Local Open Scope Z_scope.

(** ** Outcomes of Go code that may panic *)

Inductive Res (A : Type) : Type :=
| Done (a : A)
| Panicked.
Arguments Done {A} a.
Arguments Panicked {A}.

(** ** Go's [strings] and [strconv] functions used by the package *)

Module GoStrings.

Definition LF : ascii := ascii_of_nat 10.
Definition CR : ascii := ascii_of_nat 13.
Definition NUL : ascii := ascii_of_nat 0.
Definition SP : ascii := " "%char.

(** Source text of the Go literals: [go "a\r\n"] reads the escapes
    [\r], [\n] and [\\] the way Go's interpreted string literals do. *)
Fixpoint go (s : string) : string :=
  match s with
  | EmptyString => EmptyString
  | String c r =>
      if Ascii.eqb c "\"%char then
        match r with
        | String d r' =>
            if Ascii.eqb d "n"%char then String LF (go r')
            else if Ascii.eqb d "r"%char then String CR (go r')
            else if Ascii.eqb d "\"%char then String "\"%char (go r')
            else String c (go r)
        | EmptyString => String c EmptyString
        end
      else String c (go r)
  end.

(** [s[lo:hi]] for [0 <= lo <= hi <= len(s)]. *)
Definition slice (s : string) (lo hi : nat) : string :=
  String.substring lo (hi - lo) s.

(** [strings.Split(s, sep)] for a one-byte separator: the pieces between
    the separators, one more piece than there are separators. *)
Fixpoint Split (sep : ascii) (s : string) : list string :=
  match s with
  | EmptyString => [EmptyString]
  | String c r =>
      if Ascii.eqb c sep then EmptyString :: Split sep r
      else match Split sep r with
           | h :: t => String c h :: t
           | [] => [String c EmptyString]
           end
  end.

(** [strings.SplitN(s, sep, 2)] for a one-byte separator: cut at the
    first separator only. *)
Fixpoint SplitN2 (sep : ascii) (s : string) : list string :=
  match s with
  | EmptyString => [EmptyString]
  | String c r =>
      if Ascii.eqb c sep then [EmptyString; r]
      else match SplitN2 sep r with
           | h :: t => String c h :: t
           | [] => [String c EmptyString]
           end
  end.

Fixpoint TrimLeft (c : ascii) (s : string) : string :=
  match s with
  | String d r => if Ascii.eqb d c then TrimLeft c r else s
  | EmptyString => EmptyString
  end.

Fixpoint TrimRight (c : ascii) (s : string) : string :=
  match s with
  | String d r =>
      match TrimRight c r with
      | EmptyString => if Ascii.eqb d c then EmptyString else String d EmptyString
      | r' => String d r'
      end
  | EmptyString => EmptyString
  end.

(** [strings.Trim(s, " ")]. *)
Definition Trim (c : ascii) (s : string) : string := TrimRight c (TrimLeft c s).

Definition is_upper (c : ascii) : bool :=
  let n := nat_of_ascii c in (65 <=? n)%nat && (n <=? 90)%nat.
Definition is_lower (c : ascii) : bool :=
  let n := nat_of_ascii c in (97 <=? n)%nat && (n <=? 122)%nat.
Definition is_digit (c : ascii) : bool :=
  let n := nat_of_ascii c in (48 <=? n)%nat && (n <=? 57)%nat.

Definition lower_byte (c : ascii) : ascii :=
  if is_upper c then ascii_of_nat (nat_of_ascii c + 32) else c.
Definition upper_byte (c : ascii) : ascii :=
  if is_lower c then ascii_of_nat (nat_of_ascii c - 32) else c.

Fixpoint map_bytes (f : ascii -> ascii) (s : string) : string :=
  match s with
  | EmptyString => EmptyString
  | String c r => String (f c) (map_bytes f r)
  end.

(** [strings.ToLower] and [strings.ToUpper] on ASCII text (HTTP header
    names are ASCII tokens; on other bytes Go maps Unicode letters, which
    never yields the ASCII letters compared against here). *)
Definition ToLower : string -> string := map_bytes lower_byte.
Definition ToUpper : string -> string := map_bytes upper_byte.

(** [strings.Replace(s, "-", "_", -1)]. *)
Definition ReplaceAll (old new : ascii) : string -> string :=
  map_bytes (fun c => if Ascii.eqb c old then new else c).

Definition digit_val (c : ascii) : Z := Z.of_nat (nat_of_ascii c) - 48.

(** The value of a nonempty all-digit string, most significant first. *)
Fixpoint digits (acc : Z) (s : string) : option Z :=
  match s with
  | EmptyString => Some acc
  | String c r => if is_digit c then digits (acc * 10 + digit_val c) r else None
  end.

Definition unsigned (s : string) : option Z :=
  match s with
  | EmptyString => None
  | _ => digits 0 s
  end.

Definition in_int64 (x : Z) : bool := (- 2 ^ 63 <=? x) && (x <=? 2 ^ 63 - 1).

(** [strconv.Atoi(s)] on a 64-bit platform: an optional sign, then one or
    more decimal digits and nothing else, the value within [int];
    [None] stands for a non-nil error. *)
Definition Atoi (s : string) : option Z :=
  let signed :=
    match s with
    | String c r =>
        if Ascii.eqb c "-"%char then option_map Z.opp (unsigned r)
        else if Ascii.eqb c "+"%char then unsigned r
        else unsigned s
    | EmptyString => None
    end in
  match signed with
  | Some x => if in_int64 x then Some x else None
  | None => None
  end.

(** [fmt.Sprintf("%d", x)]. *)
Definition itoa (x : Z) : string := NilZero.string_of_int (Z.to_int x).

(** The last byte [s[len(s)-1]]: the index is [-1] on the empty string,
    and Go panics. *)
Fixpoint last_byte (s : string) : Res ascii :=
  match s with
  | EmptyString => Panicked
  | String c EmptyString => Done c
  | String _ r => last_byte r
  end.

(** [s[:len(s)-1]]. *)
Fixpoint drop_last (s : string) : string :=
  match s with
  | EmptyString => EmptyString
  | String _ EmptyString => EmptyString
  | String c r => String c (drop_last r)
  end.

End GoStrings.
Import GoStrings.

(** ** The two regular expressions of [cgi.go]

    Go's [regexp] returns the leftmost match and, among the matches that
    start there, the one a backtracking engine finds first (greedy
    operators take as much as they can). *)

Module Regexp.

(** [\r?] at the head of [s]: the rest and the number of bytes taken.
    Skipping a carriage return that is present never helps, since the next
    item of the pattern is [\n]. *)
Definition optCR (s : string) : string * nat :=
  match s with
  | String c r => if Ascii.eqb c CR then (r, 1%nat) else (s, 0%nat)
  | EmptyString => (s, 0%nat)
  end.

(** [\n] at the head of [s]. *)
Definition expLF (s : string) : option string :=
  match s with
  | String c r => if Ascii.eqb c LF then Some r else None
  | EmptyString => None
  end.

(** The length of a match of [\r?\n\r?\n] that starts at the head of [s]. *)
Definition eoh_here (s : string) : option nat :=
  let '(s1, a) := optCR s in
  match expLF s1 with
  | None => None
  | Some s2 =>
      let '(s3, b) := optCR s2 in
      match expLF s3 with
      | None => None
      | Some _ => Some (a + 1 + b + 1)%nat
      end
  end.

Fixpoint eoh_from (pos : nat) (s : string) : option (nat * nat) :=
  match eoh_here s with
  | Some l => Some (pos, (pos + l)%nat)
  | None =>
      match s with
      | EmptyString => None
      | String _ r => eoh_from (S pos) r
      end
  end.

(** [eoh.FindIndex(b)] for [eoh = regexp.Compile(`\r?\n\r?\n`)]: the
    start and end offsets of the leftmost match, [None] for [nil]. *)
Definition eoh_FindIndex (b : string) : option (nat * nat) := eoh_from 0 b.

Definition three_digits (s : string) : option string :=
  match s with
  | String a (String b (String c _)) =>
      if is_digit a && is_digit b && is_digit c
      then Some (String a (String b (String c EmptyString)))
      else None
  | _ => None
  end.

(** The last place of [s], before any line feed, where three digits
    stand: where [(\d\d\d)] matches after the greedy [.+] has given back
    as little as it must ([.] does not match a line feed). *)
Fixpoint last_ddd (s : string) : option string :=
  match s with
  | EmptyString => None
  | String c r =>
      if Ascii.eqb c LF then None
      else match last_ddd r with
           | Some t => Some t
           | None => three_digits s
           end
  end.

Fixpoint strip_prefix (p s : string) : option string :=
  match p, s with
  | EmptyString, _ => Some s
  | String a p', String b s' => if Ascii.eqb a b then strip_prefix p' s' else None
  | String _ _, EmptyString => None
  end.

(** [status_re.FindAllStringSubmatch(s, -1)] for
    [status_re = regexp.MustCompile(`^HTTP/.+(\d\d\d)`)]: the text of group 1
    of the first match, [t[0][1]]; [None] when [len(t) = 0].  The pattern is
    anchored, so there is at most one match; [.+] takes at least one byte
    that is not a line feed. *)
Definition status_re (s : string) : option string :=
  match strip_prefix "HTTP/" s with
  | Some (String c r) => if Ascii.eqb c LF then None else last_ddd r
  | _ => None
  end.

End Regexp.
Import Regexp.

(** ** [context.go]: the request context *)

(** The calls made on the [http.ResponseWriter] of a request, oldest
    first: [w.WriteHeader(status)], [w.Write(b)] and [w.Header().Set(k, v)]. *)
Inductive Call : Type :=
| WriteHeader (status : Z)
| Write (b : string)
| HeaderSet (name val : string).

(** The calls that put bytes on the wire: the status line and the body. *)
Definition on_wire (c : Call) : bool :=
  match c with
  | WriteHeader _ | Write _ => true
  | HeaderSet _ _ => false
  end.

Definition wire (cs : list Call) : list Call := List.filter on_wire cs.

(** The fields of [NxContext] the gateway reads and writes; [res] stands for
    the response writer by the calls it has received. *)
Record NxContext : Type := mkContext {
  params : list string;
  stopped : bool;
  res : list Call
}.

(** Code that works on a context and may panic.  The context a panic
    leaves behind is kept: the calls made before it did happen. *)
Definition M (A : Type) : Type := NxContext -> Res A * NxContext.

Definition ret {A} (a : A) : M A := fun ctx => (Done a, ctx).
Definition panic {A} : M A := fun ctx => (Panicked, ctx).
Definition bind {A B} (m : M A) (k : A -> M B) : M B :=
  fun ctx =>
    match m ctx with
    | (Done a, ctx') => k a ctx'
    | (Panicked, ctx') => (Panicked, ctx')
    end.

Notation "'do' x <- m ; k" := (bind m (fun x => k))
  (at level 10, x name, m at level 100, k at level 200).

Definition call (c : Call) : M unit :=
  fun ctx => (Done tt, mkContext (params ctx) (stopped ctx) (res ctx ++ [c])).

(** *** The response writer of [net/http]

    [w.WriteHeader(code)] on the response of the server: once the header is
    written a further call is logged as superfluous and does nothing; before
    that, a code outside 100..999 panics ([checkWriteHeaderCode]), a code
    1xx other than 101 goes out as an informational response and leaves the
    header unwritten, and any other code is written as the status of the
    response.  [w.Write] writes the header with status 200 first when it is
    not written yet. *)
Definition valid_code (st : Z) : bool := (100 <=? st) && (st <=? 999).

Definition informational (st : Z) : bool :=
  (100 <=? st) && (st <=? 199) && negb (st =? 101).

(** A code that [WriteHeader] writes as the status of the response. *)
Definition final_code (st : Z) : bool := valid_code st && negb (informational st).

(** The status a call commits the response to when none is committed. *)
Definition commits (c : Call) : option Z :=
  match c with
  | WriteHeader st => if final_code st then Some st else None
  | Write _ => Some 200
  | HeaderSet _ _ => None
  end.

(** The status of the response after these calls: that of the first call
    that commits one. *)
Definition committed (cs : list Call) : option Z := List.head (omap commits cs).

(** [w.WriteHeader(status)] as code of the package calls it: the call is
    recorded, and it panics when the header is not written and the code is
    not valid. *)
Definition write_header (status : Z) : M unit :=
  fun ctx =>
    (match committed (res ctx) with
     | Some _ => Done tt
     | None => if valid_code status then Done tt else Panicked
     end,
     mkContext (params ctx) (stopped ctx) (res ctx ++ [WriteHeader status])).

Module NxCtx.

(** [func (self *NxContext) UrlParam(idx int) string]: the slice index
    is checked by the Go runtime and panics outside [0 <= idx < len]. *)
Definition UrlParam (self : NxContext) (idx : Z) : Res string :=
  if idx <? Z.of_nat (length (params self)) then
    match (if 0 <=? idx then params self !! Z.to_nat idx else None) with
    | Some s => Done s
    | None => Panicked
    end
  else Done "".

Definition IsStopped : M bool := fun ctx => (Done (stopped ctx), ctx).

(** [func (self *NxContext) End(status int)]: [self.stopped = true] comes
    first, then [self.res.WriteHeader(status)]. *)
Definition End (status : Z) : M unit :=
  fun ctx =>
    if negb (stopped ctx)
    then write_header status (mkContext (params ctx) true (res ctx))
    else (Done tt, ctx).

(** [SendBytes] and [SendString]: [self.res.Write(b)], whatever [stopped] is. *)
Definition SendBytes (b : string) : M unit := call (Write b).
Definition SendString (text : string) : M unit := call (Write text).

End NxCtx.

(** ** [DefaultProcessor] and [entry.go]: processors and their timeouts

    Processors are heap objects linked through [next]; an address stands for
    a [*DefaultProcessor] (every processor type of the package embeds it and
    none overrides [SetTimeout]). *)

Definition addr := nat.

Module DefaultProcessor.

Record t : Type := mk {
  name : string;
  timeout : Z;
  next : option addr
}.

Definition with_timeout (i : Z) (d : t) : t := mk (name d) i (next d).

Definition GetTimeout (self : addr) (h : gmap addr t) : option Z :=
  timeout <$> h !! self.

(** [func (self *DefaultProcessor) SetTimeout(i int) NxProcessor]. *)
Definition SetTimeout (self : addr) (i : Z) (h : gmap addr t) : gmap addr t :=
  if 0 <? i then alter (with_timeout i) self h else h.

Definition getnext (self : addr) (h : gmap addr t) : option addr :=
  h !! self ≫= next.

End DefaultProcessor.

Module BaseEntry.

Record t : Type := mk {
  name : string;
  proc : option addr
}.

(** [for p := self.proc; p != nil; p = p.getnext() { p.SetTimeout(i) }],
    cut after [fuel] rounds: the heap the loop has produced by then. *)
Fixpoint loop (fuel : nat) (p : option addr) (i : Z)
    (h : gmap addr DefaultProcessor.t) : gmap addr DefaultProcessor.t :=
  match fuel, p with
  | S fuel', Some a =>
      let h' := DefaultProcessor.SetTimeout a i h in
      loop fuel' (DefaultProcessor.getnext a h') i h'
  | _, _ => h
  end.

(** [func (self *BaseEntry) SetTimeout(i int) Entry]. *)
Definition SetTimeout (fuel : nat) (self : t) (i : Z)
    (h : gmap addr DefaultProcessor.t) : gmap addr DefaultProcessor.t :=
  if 0 <? i then loop fuel (proc self) i h else h.

(** The loop has run to its end when it meets [nil] within its fuel. *)
Fixpoint finished (fuel : nat) (p : option addr) (i : Z)
    (h : gmap addr DefaultProcessor.t) : bool :=
  match p, fuel with
  | None, _ => true
  | Some _, O => false
  | Some a, S fuel' =>
      let h' := DefaultProcessor.SetTimeout a i h in
      finished fuel' (DefaultProcessor.getnext a h') i h'
  end.

End BaseEntry.

(** ** [cgi.go]: the gateway *)

Module Cgi.

(** The parts of [*http.Request] the gateway reads.  [Header] is Go's
    [map[string][]string], given in the order the [range] loop of one run
    visits it. *)
Record Request : Type := mkRequest {
  Method : string;
  Path : string;
  RawQuery : string;
  ContentLength : Z;
  Host : string;
  Header : list (string * list string)
}.

Record CgiProcessor : Type := mkCgi {
  bin : string;
  opts : list string;
  envs : list string
}.

(** [fmt.Sprintf("%s=%s", k, v)]. *)
Definition assign (k v : string) : string := k +:+ "=" +:+ v.

(** [NewCgiProcessor(bin, opts, envmap)], [envmap] in the order its
    [range] loop visits it. *)
Definition NewCgiProcessor (bin : string) (opts : list string)
    (envmap : list (string * string)) : CgiProcessor :=
  mkCgi bin opts (List.map (fun kv => assign (fst kv) (snd kv)) envmap).

(** [hp := strings.Split(r.Host, ":")] and the two entries made of it;
    [hp[0]] exists because [Split] never returns an empty slice. *)
Definition host_env (host : string) : list string :=
  let hp := Split ":" host in
  [assign "SERVER_NAME" (List.hd "" hp);
   match hp with
   | _ :: hp1 :: _ => assign "SERVER_PORT" hp1
   | _ => "SERVER_PORT=80"
   end].

Definition env_name (k : string) : string := ReplaceAll "-" "_" (ToUpper k).

Definition header_env (hs : list (string * list string)) : list string :=
  List.flat_map
    (fun kvs =>
       List.flat_map
         (fun s => [assign (env_name (fst kvs)) s;
                    assign ("HTTP_" +:+ env_name (fst kvs)) s])
         (snd kvs))
    hs.

Definition standard_env (r : Request) : list string :=
  ["SERVER_PROTOCOL=HTTP/1.1";
   "GATEWAY_INTERFACE=CGI/1.1";
   assign "PATH_INFO" (Path r);
   assign "REQUEST_METHOD" (Method r);
   assign "QUERY_STRING" (RawQuery r);
   assign "CONTENT_LENGTH" (itoa (ContentLength r))]
  ++ host_env (Host r).

(** The slice assigned to [cmd.Env]. *)
Definition make_env (self : CgiProcessor) (r : Request) : list string :=
  envs self ++ standard_env r ++ header_env (Header r).

(** What the subprocess sees.  [os/exec] documents: "If Env contains
    duplicate environment keys, only the last value in the slice for each
    duplicate key is used."  The key of an entry is what precedes its first
    [=]; an entry without [=] defines nothing. *)
Fixpoint cut (s : string) : option (string * string) :=
  match s with
  | EmptyString => None
  | String c r =>
      if Ascii.eqb c "="%char then Some (EmptyString, r)
      else match cut r with
           | Some (k, v) => Some (String c k, v)
           | None => None
           end
  end.

Definition defines (k : string) (entry : string) : option string :=
  match cut entry with
  | Some (k', v) => if String.eqb k' k then Some v else None
  | None => None
  end.

Fixpoint Getenv (env : list string) (k : string) : option string :=
  match env with
  | [] => None
  | e :: rest =>
      match Getenv rest k with
      | Some v => Some v
      | None => defines k e
      end
  end.

(** *** The stdout goroutine *)

Fixpoint make (n : nat) : string :=
  match n with
  | O => EmptyString
  | S n' => String NUL (make n')
  end.

Fixpoint skip (n : nat) (s : string) : string :=
  match n, s with
  | O, _ => s
  | S n', String _ r => skip n' r
  | S _, EmptyString => EmptyString
  end.

(** One round of the loop as its surroundings decide it: the bytes
    [stdout.Read(buf)] delivered ([n] is their number, at most [len(buf)]),
    whether it returned an error, and whether a [w.Write] made in this
    round returns an error. *)
Record Round : Type := mkRound {
  data : string;
  read_err : bool;
  write_err : bool
}.

(** [Read] fills the front of [buf] and leaves the rest as it was. *)
Definition read_into (buf data : string) : string :=
  data +:+ skip (String.length data) buf.

(** The local variables of the goroutine. *)
Record Worker : Type := mkWorker {
  buf : string;
  isheader : bool;
  status : Z;
  hdr : string;
  stop : bool
}.

Definition start : Worker := mkWorker (make 512) true 200 "" false.

(** [strconv.ParseInt(t, 10, 16)] with its error dropped. *)
Definition ParseInt16 (t : string) : Z :=
  match unsigned t with
  | Some x => if (x <=? 32767) then x else 32767
  | None => 0
  end.

(** The body of [for _, s := range strings.Split(string(hdr), "\n")]. *)
Definition header_line (s : string) (status : Z) : M Z :=
  match last_byte s with
  | Panicked => panic
  | Done c =>
      let s := if Ascii.eqb c CR then drop_last s else s in
      match SplitN2 ":" s with
      | p0 :: p1 :: _ =>
          let name := Trim SP p0 in
          let val := Trim SP p1 in
          if String.eqb (ToLower name) "status" then
            match Atoi val with
            | Some x => ret x
            | None => ret status
            end
          else
            do _ <- call (HeaderSet name val); ret status
      | _ =>
          match status_re s with
          | Some t => ret (ParseInt16 t)
          | None => ret status
          end
      end
  end.

Fixpoint header_lines (lines : list string) (status : Z) : M Z :=
  match lines with
  | [] => ret status
  | s :: rest => do status' <- header_line s status; header_lines rest status'
  end.

(** One round of [for stop := false; !stop; { ... }]. *)
Definition round (r : Round) (w : Worker) : M Worker :=
  let n := String.length (data r) in
  let buf := read_into (buf w) (data r) in
  let stop := read_err r in
  if 0 <? Z.of_nat n then
    if isheader w then
      match eoh_FindIndex buf with
      | Some (i0, i1) =>
          let hdr := hdr w +:+ slice buf 0 i0 in
          do status <- header_lines (Split LF hdr) (status w);
          do stopped <- NxCtx.IsStopped;
          if negb stopped then
            do _ <- write_header status;
            if Z.of_nat i1 <? Z.of_nat n - 1 then
              do _ <- call (Write (slice buf i1 n));
              ret (mkWorker buf false status hdr (stop || write_err r))
            else ret (mkWorker buf false status hdr stop)
          else ret (mkWorker buf false status hdr stop)
      | None =>
          ret (mkWorker buf true (status w) (hdr w +:+ slice buf 0 n) stop)
      end
    else
      do stopped <- NxCtx.IsStopped;
      if negb stopped then
        do _ <- call (Write (slice buf 0 n));
        ret (mkWorker buf false (status w) (hdr w) (stop || write_err r))
      else ret (mkWorker buf false (status w) (hdr w) stop)
  else ret (mkWorker buf (isheader w) (status w) (hdr w) stop).

(** The loop over the rounds its reads provide; it ends with [stop]. *)
Fixpoint rounds (rs : list Round) (w : Worker) : M Worker :=
  match rs with
  | [] => ret w
  | r :: rest =>
      do w' <- round r w;
      if stop w' then ret w' else rounds rest w'
  end.

(** The goroutine from its start, on a fresh context. *)
Definition fresh (ps : list string) : NxContext := mkContext ps false [].

Definition stdout_worker (rs : list Round) : Res Worker * NxContext :=
  rounds rs start (fresh []).

(** A read of [s] without errors. *)
Definition chunk (s : string) : Round := mkRound s false false.

(** *** What happens to one request, in some interleaving: calls on the
    context from the request's own goroutine and rounds of the stdout
    goroutine. *)
Inductive Op : Type :=
| OpEnd (status : Z)
| OpSendBytes (b : string)
| OpSendString (text : string)
| OpRound (r : Round).

Definition op (o : Op) (w : Worker) : M Worker :=
  match o with
  | OpEnd st => do _ <- NxCtx.End st; ret w
  | OpSendBytes b => do _ <- NxCtx.SendBytes b; ret w
  | OpSendString t => do _ <- NxCtx.SendString t; ret w
  | OpRound r => if stop w then ret w else round r w
  end.

Fixpoint ops (os : list Op) (w : Worker) : M Worker :=
  match os with
  | [] => ret w
  | o :: rest => do w' <- op o w; ops rest w'
  end.

End Cgi.

(** ** Notions the properties are stated with *)

Import Cgi.

(** *** Sequences of timeout settings on a heap of processors *)

Inductive TimeoutOp : Type :=
| OnProcessor (p : addr) (i : Z)
| OnEntry (fuel : nat) (e : BaseEntry.t) (i : Z).

Definition timeout_op (o : TimeoutOp) (h : gmap addr DefaultProcessor.t)
    : gmap addr DefaultProcessor.t :=
  match o with
  | OnProcessor p i => DefaultProcessor.SetTimeout p i h
  | OnEntry fuel e i => BaseEntry.SetTimeout fuel e i h
  end.

Definition timeout_ops (os : list TimeoutOp) (h : gmap addr DefaultProcessor.t)
    : gmap addr DefaultProcessor.t :=
  List.fold_left (fun h o => timeout_op o h) os h.

(** A processor that exists and has a positive timeout: the gateway runs
    its subprocess under a deadline. *)
Definition deadline_bound (h : gmap addr DefaultProcessor.t) (p : addr) : Prop :=
  exists d, h !! p = Some d /\ 0 < DefaultProcessor.timeout d.

(** [path h p l]: following [next] from [p] visits exactly the addresses
    [l] and then reaches [nil]. *)
Inductive path (h : gmap addr DefaultProcessor.t) : option addr -> list addr -> Prop :=
| path_nil : path h None []
| path_cons a d l :
    h !! a = Some d ->
    path h (DefaultProcessor.next d) l ->
    path h (Some a) (a :: l).

(** *** The response as the client sees it *)

Definition header_sets (cs : list Call) : list (string * string) :=
  omap (fun c => match c with HeaderSet k v => Some (k, v) | _ => None end) cs.

Definition body (cs : list Call) : list string :=
  omap (fun c => match c with Write b => Some b | _ => None end) cs.

(** *** A header block read line by line, in the words of the specification *)

(** A line without its trailing carriage return. *)
Definition chomp (s : string) : string :=
  match last_byte s with
  | Done c => if Ascii.eqb c CR then drop_last s else s
  | Panicked => s
  end.

(** A line with a colon whose name is [status] in any letter case and whose
    value parses as an integer. *)
Definition status_header (line : string) : option Z :=
  match SplitN2 ":" (chomp line) with
  | name :: val :: _ =>
      if String.eqb (ToLower (Trim SP name)) "status" then Atoi (Trim SP val) else None
  | _ => None
  end.

(** A line without a colon of the shape [HTTP/<version> <code>]. *)
Definition status_line (line : string) : option Z :=
  match SplitN2 ":" (chomp line) with
  | _ :: _ :: _ => None
  | _ => ParseInt16 <$> status_re (chomp line)
  end.

(** A line with a colon and any other name: a header to forward. *)
Definition plain_header (line : string) : option (string * string) :=
  match SplitN2 ":" (chomp line) with
  | name :: val :: _ =>
      if String.eqb (ToLower (Trim SP name)) "status" then None
      else Some (Trim SP name, Trim SP val)
  | _ => None
  end.

(** The status as the specification words it: that of a [Status] header,
    else that of a status line, else 200. *)
Definition claimed_status (lines : list string) : Z :=
  match List.head (omap status_header lines) with
  | Some x => x
  | None =>
      match List.head (omap status_line lines) with
      | Some x => x
      | None => 200
      end
  end.

(** The status the last status-setting line of the block sets, else 200. *)
Definition sets_status (line : string) : option Z :=
  match status_header line with
  | Some x => Some x
  | None => status_line line
  end.

Definition effective_status (lines : list string) : Z :=
  default 200 (last (omap sets_status lines)).

(** The calls a line makes on the response: it sets at most one header. *)
Definition line_calls (line : string) : list Call :=
  match plain_header line with
  | Some (k, v) => [HeaderSet k v]
  | None => []
  end.

Definition next_status (st : Z) (line : string) : Z := default st (sets_status line).

Definition add_calls (cs : list Call) (ctx : NxContext) : NxContext :=
  mkContext (params ctx) (stopped ctx) (res ctx ++ cs).

(** *** Properties of read sequences *)

(** No byte of [s] from offset [k] on differs from the zero byte a fresh
    buffer holds. *)
Fixpoint all_nul (s : string) : bool :=
  match s with
  | EmptyString => true
  | String c r => Ascii.eqb c NUL && all_nul r
  end.

(** [buf] holds, behind its first [k] bytes, only the zero bytes it was
    made with. *)
Definition clean_from (k : nat) (b : string) : Prop := all_nul (skip k b) = true.

(** Each read that delivers bytes delivers at least as many as the one
    before it ([k] bytes), so that it overwrites all that earlier reads left
    in [buf]; a read that delivers nothing leaves [buf] alone. *)
Fixpoint growing (k : nat) (rs : list Round) : bool :=
  match rs with
  | [] => true
  | r :: rest =>
      match data r with
      | EmptyString => growing k rest
      | _ => (k <=? String.length (data r))%nat && growing (String.length (data r)) rest
      end
  end.

(** No single read holds a complete separator. *)
Definition no_separator (r : Round) : bool :=
  match eoh_FindIndex (data r) with
  | Some _ => false
  | None => true
  end.

Fixpoint concat_data (rs : list Round) : string :=
  match rs with
  | [] => EmptyString
  | r :: rest => data r +:+ concat_data rest
  end.

(** The rounds the loop runs: up to the first read error, inclusive. *)
Fixpoint executed (rs : list Round) : list Round :=
  match rs with
  | [] => []
  | r :: rest => if read_err r then [r] else r :: executed rest
  end.

Fixpoint has_byte (c : ascii) (s : string) : bool :=
  match s with
  | EmptyString => false
  | String d r => Ascii.eqb d c || has_byte c r
  end.

Definition is_send (o : Op) : bool :=
  match o with
  | OpSendBytes _ | OpSendString _ => true
  | _ => false
  end.

(** The body bytes of the chunk that brought the separator, as the guard
    [idx[1] < n-1] lets them through. *)
Definition first_body (c : string) (i1 : nat) : list string :=
  if Z.of_nat i1 <? Z.of_nat (String.length c) - 1
  then [slice c i1 (String.length c)]
  else [].

(** Nothing was put on the wire between two contexts, and [stopped] is as
    it was. *)
Definition quiet (ctx ctx' : NxContext) : Prop :=
  stopped ctx' = stopped ctx /\ wire (res ctx') = wire (res ctx).

Definition no_send (o : Op) : bool := negb (is_send o).

(** The names the gateway defines for every request. *)
Definition standard_names : list string :=
  ["SERVER_PROTOCOL"; "GATEWAY_INTERFACE"; "PATH_INFO"; "REQUEST_METHOD";
   "QUERY_STRING"; "CONTENT_LENGTH"; "SERVER_NAME"; "SERVER_PORT"].

(** *** Inputs used below *)

Definition two_processors : gmap addr DefaultProcessor.t :=
  <[1%nat := DefaultProcessor.mk "function" 0 (Some 2%nat)]>
    (<[2%nat := DefaultProcessor.mk "cgi" 3000 None]> ∅).

Definition entry_at_1 : BaseEntry.t := BaseEntry.mk "^/report$" (Some 1%nat).

Definition echo_cgi : CgiProcessor :=
  NewCgiProcessor "echo-cgi" ["--mode"; "x"] [("SERVER_PORT", "9000"); ("LANG", "C")].

Definition plain_cgi : CgiProcessor := NewCgiProcessor "echo-cgi" ["--mode"; "x"] [].

Definition get_report (host : string) : Request :=
  mkRequest "GET" "/report" "x=1" 0 host
    [("Accept-Encoding", ["gzip"; "br"]); ("X-Id", ["7"])].

(** ** The rest of [context.go]: request data and form values *)

(** A Go [interface{}] value as the package uses it: [nil], a [[]string]
    (the dynamic options of the gateway), or any other value, told apart by
    a tag. *)
Inductive Any : Type :=
| ANil
| AStrings (ss : list string)
| AOther (tag : nat).

Module Data.

(** The two fields behind [PutData], [GetData] and [DataNames]:
    [self.datakeys] and the chain of [context.WithValue] layers of
    [self.req.Context()], the newest layer first. *)
Record t : Type := mk {
  datakeys : list string;
  layers : list (string * Any)
}.

(** What [BaseEntry.Exec] starts from: [datakeys: make([]string, 0)] and
    the context of the incoming request, which holds no string key. *)
Definition empty : t := mk [] [].

(** [for _, x := range self.datakeys { if x == k { exists = true; break } }]. *)
Fixpoint exists_key (k : string) (keys : list string) : bool :=
  match keys with
  | [] => false
  | x :: rest => if String.eqb x k then true else exists_key k rest
  end.

(** [func (self *NxContext) PutData(k string, v interface{}) *NxContext]. *)
Definition PutData (k : string) (v : Any) (self : t) : t :=
  mk (if exists_key k (datakeys self) then datakeys self else datakeys self ++ [k])
     ((k, v) :: layers self).

(** [ctx.Value(k)]: the value of the newest layer with this key, [nil]
    when no layer has it. *)
Fixpoint Value (k : string) (ls : list (string * Any)) : Any :=
  match ls with
  | [] => ANil
  | (k', v) :: rest => if String.eqb k' k then v else Value k rest
  end.

(** [func (self *NxContext) GetData(k string) interface{}]. *)
Definition GetData (k : string) (self : t) : Any := Value k (layers self).

Definition DataNames (self : t) : list string := datakeys self.

(** [for k, v := range self.data { ctx.PutData(k, v) }] of [BaseEntry.Exec],
    the entry's map given in the order the loop visits it. *)
Definition put_all (kvs : list (string * Any)) (self : t) : t :=
  List.fold_left (fun d kv => PutData (fst kv) (snd kv) d) kvs self.

End Data.

Module Form.

(** [strconv.ParseInt(s, 10, bits)]: an optional sign, decimal digits and
    nothing else ([signed_decimal]), the value within the signed range of
    [bits] bits; [None] stands for a non-nil error. *)
Definition signed_decimal (s : string) : option Z :=
  match s with
  | String c r =>
      if Ascii.eqb c "-"%char then option_map Z.opp (unsigned r)
      else if Ascii.eqb c "+"%char then unsigned r
      else unsigned s
  | EmptyString => None
  end.

Definition ParseInt10 (bits : Z) (s : string) : option Z :=
  match signed_decimal s with
  | Some x => if (- 2 ^ (bits - 1) <=? x) && (x <=? 2 ^ (bits - 1) - 1) then Some x else None
  | None => None
  end.

(** [func (self *NxContext) FormValueInt(name string, failsafe int) int],
    given the text [v] that [self.FormValue(name)] returns. *)
Definition FormValueInt (v : string) (failsafe : Z) : Z :=
  match ParseInt10 32 v with
  | None => failsafe
  | Some i => i
  end.

Definition one_of (words : list string) (s : string) : bool :=
  List.existsb (String.eqb s) words.

(** [strconv.ParseBool(str)]. *)
Definition ParseBool (str : string) : option bool :=
  if one_of ["1"; "t"; "T"; "TRUE"; "true"; "True"] str then Some true
  else if one_of ["0"; "f"; "F"; "FALSE"; "false"; "False"] str then Some false
  else None.

(** [func (self *NxContext) FormValueBool(name string, failsafe bool) bool],
    given the text that [self.FormValue(name)] returns. *)
Definition FormValueBool (text : string) (failsafe : bool) : bool :=
  let v := ToLower text in
  if one_of ["yes"; "y"; "true"; "t"; "1"] v then true
  else if one_of ["no"; "n"; "false"; "f"; "0"] v then false
  else if String.eqb v "" then failsafe
  else match ParseBool v with
       | None => failsafe
       | Some b => b
       end.

End Form.

(** ** The rest of [CgiProcessor.Process]: arguments and the two other pipes *)

Module Pipes.

(** [args]: the fixed options, then the value stored under ["cgi:options"]
    when it is a [[]string], then the route parameters. *)
Definition make_args (self : CgiProcessor) (d : Data.t) (ps : list string) : list string :=
  opts self
  ++ match Data.GetData "cgi:options" d with
     | AStrings ss => ss
     | _ => []
     end
  ++ ps.

(** One [Read]: the bytes delivered and whether an error came with them. *)
Record Read : Type := mkRead {
  got : string;
  failed : bool
}.

(** The stdin goroutine: [buf] and the chunks written to the subprocess so
    far, oldest first.  A chunk is written whether or not [Read] failed,
    except an empty one after a failure; a failure ends the loop. *)
Fixpoint feed (rs : list Read) (buf : string) (written : list string)
    : string * list string * bool :=
  match rs with
  | [] => (buf, written, false)
  | r :: rest =>
      let n := String.length (got r) in
      let buf := read_into buf (got r) in
      if failed r then
        if 0 <? Z.of_nat n
        then (buf, written ++ [slice buf 0 n], true)
        else (buf, written, true)
      else feed rest buf (written ++ [slice buf 0 n])
  end.

(** [stdin feeding routine]: what has been written and whether the pipe
    has been closed ([defer stdin.Close()] runs when the loop ends). *)
Definition stdin_worker (rs : list Read) : list string * bool :=
  let '(_, written, closed) := feed rs (make 512) [] in (written, closed).

(** [stderr piping routine]: the same loop with [log.Print(string(buf[:n]))]
    in place of the write; the texts logged. *)
Definition stderr_worker (rs : list Read) : list string * bool :=
  let '(_, logged, closed) := feed rs (make 512) [] in (logged, closed).

Fixpoint concat_got (rs : list Read) : string :=
  match rs with
  | [] => EmptyString
  | r :: rest => got r +:+ concat_got rest
  end.

(** The reads the loop makes: up to the first failure, inclusive. *)
Fixpoint consumed (rs : list Read) : list Read :=
  match rs with
  | [] => []
  | r :: rest => if failed r then [r] else r :: consumed rest
  end.

Fixpoint concat_all (ss : list string) : string :=
  match ss with
  | [] => EmptyString
  | x :: rest => x +:+ concat_all rest
  end.

End Pipes.

(** ** Linking processors and running a chain *)

Module Link.

(** [func (self *DefaultProcessor) Then(p NxProcessor) NxProcessor]: it
    panics when [self] already has a successor; the heap is the result, the
    value returned is [p].  An address without an object stands for a nil
    receiver. *)
Definition Then (self p : addr) (h : gmap addr DefaultProcessor.t)
    : Res (gmap addr DefaultProcessor.t) :=
  match h !! self with
  | None => Panicked
  | Some d =>
      match DefaultProcessor.next d with
      | Some _ => Panicked
      | None =>
          Done (<[self := DefaultProcessor.mk (DefaultProcessor.name d)
                            (DefaultProcessor.timeout d) (Some p)]> h)
      end
  end.

(** [tailof] in [Use]:
    [for ; p.getnext() != nil; p = p.getnext() {}; return p].  [None] when
    the loop has not ended after [fuel] rounds; a processor that is not
    there is a nil receiver. *)
Fixpoint tailof (fuel : nat) (p : addr) (h : gmap addr DefaultProcessor.t)
    : option (Res addr) :=
  match fuel with
  | O => None
  | S fuel' =>
      match h !! p with
      | None => Some Panicked
      | Some d =>
          match DefaultProcessor.next d with
          | Some q => tailof fuel' q h
          | None => Some (Done p)
          end
      end
  end.

(** [tailof(a).Then(p)]. *)
Definition link_tail (fuel : nat) (a p : addr) (h : gmap addr DefaultProcessor.t)
    : option (Res (gmap addr DefaultProcessor.t)) :=
  match tailof fuel a h with
  | None => None
  | Some Panicked => Some Panicked
  | Some (Done t) => Some (Then t p h)
  end.

(** [for i, p := range ps { if i > 0 { tailof(ps[i-1]).Then(p) } }], from
    the second processor on; [prev] is [ps[i-1]]. *)
Fixpoint chain_up (fuel : nat) (prev : addr) (ps : list addr)
    (h : gmap addr DefaultProcessor.t) : option (Res (gmap addr DefaultProcessor.t)) :=
  match ps with
  | [] => Some (Done h)
  | p :: rest =>
      match link_tail fuel prev p h with
      | Some (Done h') => chain_up fuel p rest h'
      | r => r
      end
  end.

(** [func (self *BaseEntry) Use(ps ...NxProcessor) Entry]: the entry and the
    heap afterwards. *)
Definition Use (fuel : nat) (self : BaseEntry.t) (ps : list addr)
    (h : gmap addr DefaultProcessor.t)
    : option (Res (BaseEntry.t * gmap addr DefaultProcessor.t)) :=
  match ps with
  | [] => Some Panicked
  | p0 :: rest =>
      match (if 1 <? Z.of_nat (length ps) then chain_up fuel p0 rest h
             else Some (Done h)) with
      | None => None
      | Some Panicked => Some Panicked
      | Some (Done h1) =>
          match BaseEntry.proc self with
          | None => Some (Done (BaseEntry.mk (BaseEntry.name self) (Some p0), h1))
          | Some root =>
              match link_tail fuel root p0 h1 with
              | None => None
              | Some Panicked => Some Panicked
              | Some (Done h2) => Some (Done (self, h2))
              end
          end
      end
  end.

End Link.

Module Engine.

(** What a processor's [Process] does with the context it is given: the
    calls it makes on it, in order, each next call chosen after the answer
    to [IsStopped] where it asks. *)
Inductive Prog : Type :=
| Ret
| DoSendBytes (b : string) (k : Prog)
| DoSendString (text : string) (k : Prog)
| DoPutData (key : string) (v : Any) (k : Prog)
| DoEnd (status : Z) (k : Prog)
| DoRunNext (k : Prog)
| AskStopped (k : bool -> Prog).

(** A request under way: the context with its data, [self.cproc], and the
    processors whose [Process] has been entered so far, oldest first (kept
    for the statements only). *)
Record Run : Type := mkRun {
  ctx : NxContext;
  data : Data.t;
  cproc : option addr;
  entered : list addr
}.

Section Chain.

(** The processors of the server and the code of each. *)
Variable h : gmap addr DefaultProcessor.t.
Variable code : addr -> Prog.

Definition on_ctx (f : M unit) (st : Run) : Run :=
  mkRun (snd (f (ctx st))) (data st) (cproc st) (entered st).

(** [exec fuel prog st]: run [prog]; [fuel] bounds how deep [Process] calls
    nest through [RunNext], [None] when that bound is reached.

    [RunNext] is
    [if self.cproc != nil && !self.stopped {
       if p := self.cproc.getnext(); p != nil { self.cproc = p; p.Process(self) } }]. *)
Fixpoint exec (fuel : nat) (prog : Prog) (st : Run) {struct fuel} : option Run :=
  match fuel with
  | O => None
  | S fuel' =>
      (fix go (prog : Prog) (st : Run) {struct prog} : option Run :=
         match prog with
         | Ret => Some st
         | DoSendBytes b k => go k (on_ctx (NxCtx.SendBytes b) st)
         | DoSendString t k => go k (on_ctx (NxCtx.SendString t) st)
         | DoPutData key v k =>
             go k (mkRun (ctx st) (Data.PutData key v (data st)) (cproc st) (entered st))
         | DoEnd status k => go k (on_ctx (NxCtx.End status) st)
         | AskStopped k => go (k (stopped (ctx st))) st
         | DoRunNext k =>
             match cproc st with
             | Some c =>
                 if negb (stopped (ctx st)) then
                   match DefaultProcessor.getnext c h with
                   | Some p =>
                       match exec fuel' (code p)
                               (mkRun (ctx st) (data st) (Some p) (entered st ++ [p])) with
                       | Some st' => go k st'
                       | None => None
                       end
                   | None => go k st
                   end
                 else go k st
             | None => go k st
             end
         end) prog st
  end.

(** [func (self *BaseEntry) Exec(w, r, params)]: nothing without a
    processor; else a new context, the entry's data put into it, and
    [self.proc.Process(ctx)]. *)
Definition Exec (fuel : nat) (self : BaseEntry.t) (entry_data : list (string * Any))
    (ps : list string) : option (option Run) :=
  match BaseEntry.proc self with
  | None => Some None
  | Some root =>
      Some <$> exec fuel (code root)
                 (mkRun (fresh ps) (Data.put_all entry_data Data.empty) (Some root) [root])
  end.

End Chain.

(** Whether a program can call [RunNext] or [End] at all. *)
Fixpoint calls_RunNext (prog : Prog) : Prop :=
  match prog with
  | Ret => False
  | DoSendBytes _ k | DoSendString _ k | DoPutData _ _ k | DoEnd _ k => calls_RunNext k
  | DoRunNext _ => True
  | AskStopped k => calls_RunNext (k false)
  end.

Fixpoint never_Ends (prog : Prog) : Prop :=
  match prog with
  | Ret => True
  | DoSendBytes _ k | DoSendString _ k | DoPutData _ _ k | DoRunNext k => never_Ends k
  | DoEnd _ _ => False
  | AskStopped k => forall b, never_Ends (k b)
  end.

End Engine.

(** ** [handler.go]: registration and routing *)

Module Handler.

(** [strings.HasPrefix(s, prefix)] and [strings.HasSuffix(s, suffix)]. *)
Fixpoint HasPrefix (s prefix : string) : bool :=
  match prefix, s with
  | EmptyString, _ => true
  | String a p', String b s' => Ascii.eqb a b && HasPrefix s' p'
  | String _ _, EmptyString => false
  end.

Definition HasSuffix (s suffix : string) : bool :=
  (String.length suffix <=? String.length s)%nat
  && String.eqb (skip (String.length s - String.length suffix) s) suffix.

(** [strings.Join(elems, sep)]. *)
Fixpoint Join (elems : list string) (sep : string) : string :=
  match elems with
  | [] => EmptyString
  | [x] => x
  | x :: rest => x +:+ sep +:+ Join rest sep
  end.

Section Routing.

(** Entries and mounted handlers as the routing code sees them: an entry
    through its [Match] ([None] for a nil result), a mounted handler through
    [http.StripPrefix], and the making of an entry, which panics on a
    pattern that does not compile. *)
Variable E : Type.
Variable H : Type.
Variable Match : E -> string -> option (list string).
Variable StripPrefix : string -> H -> H.
Variable NewRegexpEntry : string -> list addr -> Res E.

(** The maps of [NxHandler]; [mounts] is [None] while it is the nil map. *)
Record NxHandler : Type := mkHandler {
  getmap : gmap string E;
  postmap : gmap string E;
  delmap : gmap string E;
  putmap : gmap string E;
  mounts : option (gmap string H);
  timeout : Z
}.

(** [func NewNxHandler() *NxHandler]: the four route maps are made, [mounts]
    is not. *)
Definition NewNxHandler : NxHandler := mkHandler ∅ ∅ ∅ ∅ None 0.

(** The key [Mount] stores under. *)
Definition mount_key (subpath : string) : string :=
  if negb (HasSuffix subpath "/") then subpath +:+ "/" else subpath.

(** [func (self *NxHandler) Mount(subpath string, handler http.Handler)].
    Writing into the nil map panics. *)
Definition Mount (subpath : string) (handler : H) (self : NxHandler) : Res NxHandler :=
  if (Z.of_nat (String.length subpath) =? 0) || String.eqb subpath "/" then Panicked
  else
    match mounts self with
    | None => Panicked
    | Some m =>
        Done (mkHandler (getmap self) (postmap self) (delmap self) (putmap self)
                (Some (<[mount_key subpath := StripPrefix (mount_key subpath) handler]> m))
                (timeout self))
    end.

(** [func addproc(dict map[string]Entry, pattern string, ps []NxProcessor) Entry]:
    the map afterwards. *)
Definition addproc (dict : gmap string E) (pattern : string) (ps : list addr)
    : Res (gmap string E) :=
  match dict !! pattern with
  | Some _ => Panicked
  | None =>
      match NewRegexpEntry pattern ps with
      | Panicked => Panicked
      | Done a => Done (<[pattern := a]> dict)
      end
  end.

(** Registrations one after the other, as the set-up code of a server
    makes them on one of the maps. *)
Fixpoint addprocs (dict : gmap string E) (regs : list (string * list addr))
    : Res (gmap string E) :=
  match regs with
  | [] => Done dict
  | (pattern, ps) :: rest =>
      match addproc dict pattern ps with
      | Panicked => Panicked
      | Done dict' => addprocs dict' rest
      end
  end.

(** The calls of a server's set-up code on its handler: [DoGet], [DoPost],
    [DoDelete] and [DoPut] are [addproc] on the map of the method,
    [SetTimeout] stores its argument. *)
Inductive Setup : Type :=
| DoGet (pattern : string) (ps : list addr)
| DoPost (pattern : string) (ps : list addr)
| DoDelete (pattern : string) (ps : list addr)
| DoPut (pattern : string) (ps : list addr)
| SetTimeout (ms : Z)
| DoMount (subpath : string) (handler : H).

Definition with_map (r : Res (gmap string E)) (put : gmap string E -> NxHandler)
    : Res NxHandler :=
  match r with
  | Done m => Done (put m)
  | Panicked => Panicked
  end.

Definition setup_call (c : Setup) (self : NxHandler) : Res NxHandler :=
  match c with
  | DoGet pattern ps =>
      with_map (addproc (getmap self) pattern ps)
        (fun m => mkHandler m (postmap self) (delmap self) (putmap self)
                    (mounts self) (timeout self))
  | DoPost pattern ps =>
      with_map (addproc (postmap self) pattern ps)
        (fun m => mkHandler (getmap self) m (delmap self) (putmap self)
                    (mounts self) (timeout self))
  | DoDelete pattern ps =>
      with_map (addproc (delmap self) pattern ps)
        (fun m => mkHandler (getmap self) (postmap self) m (putmap self)
                    (mounts self) (timeout self))
  | DoPut pattern ps =>
      with_map (addproc (putmap self) pattern ps)
        (fun m => mkHandler (getmap self) (postmap self) (delmap self) m
                    (mounts self) (timeout self))
  | SetTimeout ms =>
      Done (mkHandler (getmap self) (postmap self) (delmap self) (putmap self)
              (mounts self) ms)
  | DoMount subpath handler => Mount subpath handler self
  end.

Fixpoint setup (cs : list Setup) (self : NxHandler) : Res NxHandler :=
  match cs with
  | [] => Done self
  | c :: rest =>
      match setup_call c self with
      | Panicked => Panicked
      | Done self' => setup rest self'
      end
  end.

(** [func find(dict map[string]Entry, path string) (Entry, []string)], the
    map given in the order the [range] loop visits it. *)
Fixpoint find (dict : list (string * E)) (path : string) : option (E * list string) :=
  match dict with
  | [] => None
  | (_, en) :: rest =>
      match Match en path with
      | Some params => Some (en, params)
      | None => find rest path
      end
  end.

(** The order in which each [range] of one [ServeHTTP] call visits its map. *)
Record Visit : Type := mkVisit {
  vget : list (string * E);
  vpost : list (string * E);
  vdel : list (string * E);
  vput : list (string * E);
  vmounts : list (string * H)
}.

(** What [ServeHTTP] does with a request: hand it to an entry, hand it to
    a mounted handler, or answer it itself. *)
Inductive Routed : Type :=
| ToEntry (en : E) (args : list string)
| ToMount (sp : string) (hd : H)
| Answered (calls : list Call).

Definition found (o : option (E * list string)) : bool :=
  match o with Some _ => true | None => false end.

(** The methods the [OPTIONS] branch collects. *)
Definition allow (v : Visit) (path : string) : list string :=
  (if found (find (vget v) path) then ["GET"] else [])
  ++ (if found (find (vpost v) path) then ["POST"] else [])
  ++ (if found (find (vdel v) path) then ["DELETE"] else [])
  ++ (if found (find (vput v) path) then ["PUT"] else []).

Fixpoint first_mount (ms : list (string * H)) (path : string) : option (string * H) :=
  match ms with
  | [] => None
  | (sp, hd) :: rest => if HasPrefix path sp then Some (sp, hd) else first_mount rest path
  end.

(** The body of [func (self NxHandler) ServeHTTP(w, r)] up to the calls it
    hands over; [origin] and [acrh] are [r.Header.Get("origin")] and
    [r.Header.Get("access-control-request-headers")]. *)
Definition route (v : Visit) (method path origin acrh : string) : Routed :=
  if String.eqb method "OPTIONS" then
    if 0 <? Z.of_nat (length (allow v path)) then
      Answered [HeaderSet "access-control-allow-methods" (Join (allow v path) ",");
                HeaderSet "access-control-allow-origin" origin;
                HeaderSet "access-control-max-age" "180";
                HeaderSet "access-control-allow-headers" acrh;
                WriteHeader 200]
    else Answered [WriteHeader 501]
  else
    let en :=
      if String.eqb method "GET" then find (vget v) path
      else if String.eqb method "POST" then find (vpost v) path
      else if String.eqb method "DELETE" then find (vdel v) path
      else if String.eqb method "PUT" then find (vput v) path
      else None in
    match en with
    | Some (e, args) => ToEntry e args
    | None =>
        match first_mount (vmounts v) path with
        | Some (sp, hd) => ToMount sp hd
        | None => Answered [WriteHeader 501; Write "Not Implemented"]
        end
    end.

End Routing.

(** [addcgi]'s variadic arguments, by dynamic type: a [[]string], a
    [map[string]string], an [NxProcessor], or anything else. *)
Inductive Arg : Type :=
| ArgOpts (ss : list string)
| ArgEnvs (m : gmap string string)
| ArgProc (p : addr)
| ArgOther.

Record Parsed : Type := mkParsed {
  p_opts : list string;
  p_envs : gmap string string;
  p_procs : list addr;
  wantproc : bool
}.

(** The [for _, i := range args { switch i.(type) ... }] of [addcgi]. *)
Fixpoint parse_args (args : list Arg) (acc : Parsed) : Res Parsed :=
  match args with
  | [] => Done acc
  | ArgOpts ss :: rest =>
      if wantproc acc then Panicked
      else parse_args rest (mkParsed (p_opts acc ++ ss) (p_envs acc) (p_procs acc) false)
  | ArgEnvs m :: rest =>
      if wantproc acc then Panicked
      else parse_args rest (mkParsed (p_opts acc) (m ∪ p_envs acc) (p_procs acc) false)
  | ArgProc p :: rest =>
      parse_args rest (mkParsed (p_opts acc) (p_envs acc) (p_procs acc ++ [p]) true)
  | ArgOther :: rest => Panicked
  end.

Definition parse_start : Parsed := mkParsed [] ∅ [] false.

Definition is_config (a : Arg) : bool :=
  match a with
  | ArgOpts _ | ArgEnvs _ => true
  | _ => false
  end.

Definition opts_of (a : Arg) : list string :=
  match a with
  | ArgOpts ss => ss
  | _ => []
  end.

Definition envs_of (a : Arg) : gmap string string :=
  match a with
  | ArgEnvs m => m
  | _ => ∅
  end.

(** The value the last environment map of [cfg] that has [k] gives it. *)
Fixpoint last_env (k : string) (cfg : list Arg) : option string :=
  match cfg with
  | [] => None
  | a :: rest =>
      match last_env k rest with
      | Some v => Some v
      | None => envs_of a !! k
      end
  end.

(** Entries that match the paths they are a prefix of, without
    parameters, for the examples. *)
Definition prefix_entry (en path : string) : option (list string) :=
  if HasPrefix path en then Some [] else None.

End Handler.

(** The keys recorded are distinct, and every key that reads as something
    other than [nil] is among them. *)
Definition names_cover (d : Data.t) : Prop :=
  NoDup (Data.DataNames d)
  /\ forall k, Data.GetData k d <> ANil -> k ∈ Data.DataNames d.

(** The rounds the stdout loop runs once it streams the body: up to the
    first read error or failed write, inclusive. *)
Fixpoint streamed (rs : list Round) : list Round :=
  match rs with
  | [] => []
  | r :: rest =>
      if read_err r || ((0 <? Z.of_nat (String.length (data r))) && write_err r)
      then [r]
      else r :: streamed rest
  end.

(** The chunks of these rounds that hold bytes. *)
Definition chunks (rs : list Round) : list string :=
  List.filter (fun s => 0 <? Z.of_nat (String.length s)) (List.map data rs).

(** The four texts [\r?\n\r?\n] matches. *)
Definition separators : list string :=
  [go "\r\n\r\n"; go "\r\n\n"; go "\n\r\n"; go "\n\n"].

(** The request as [BaseEntry.Exec] hands it to the first processor. *)
Definition begin_run (root : addr) (entry_data : list (string * Any)) (ps : list string)
    : Engine.Run :=
  Engine.mkRun (fresh ps) (Data.put_all entry_data Data.empty) (Some root) [root].

(** Code for the processors of [two_processors]: the function processor
    records the user and passes on, the last one answers. *)
Definition report_code (p : addr) : Engine.Prog :=
  match p with
  | 1%nat => Engine.DoPutData "user" (AOther 1) (Engine.DoRunNext Engine.Ret)
  | _ => Engine.DoSendString "ok" (Engine.DoEnd 200 Engine.Ret)
  end.

(** The code of [NewLoggingProc]'s function, which logs and calls
    [ctx.RunNext()], at every processor. *)
Definition logging_code (p : addr) : Engine.Prog := Engine.DoRunNext Engine.Ret.

(** Where a run stands in the chain [L]: it has entered [pre], in this
    order, and its current processor is the last of them. *)
Definition stands (L pre : list addr) (st : Engine.Run) : Prop :=
  exists post, L = pre ++ post /\ pre <> []
               /\ Engine.entered st = pre /\ Engine.cproc st = last pre.

(** * Properties *)

(** ** The Go functions behave as their documentation says on examples *)

Example go_crlf : go "a\r\n" = String "a" (String CR (String LF EmptyString)).
Proof. reflexivity. Qed.
Example Split_empty : Split LF "" = [""].
Proof. reflexivity. Qed.
Example Split_trailing : Split ":" "a:b:" = ["a"; "b"; ""].
Proof. reflexivity. Qed.
Example SplitN2_first : SplitN2 ":" "a: b:c" = ["a"; " b:c"].
Proof. reflexivity. Qed.
Example Trim_spaces : Trim SP "  x y  " = "x y".
Proof. reflexivity. Qed.
Example Atoi_plain : Atoi "404" = Some 404.
Proof. reflexivity. Qed.
Example Atoi_reason : Atoi "404 Not Found" = None.
Proof. reflexivity. Qed.
Example Atoi_neg : Atoi "-7" = Some (-7).
Proof. reflexivity. Qed.
Example Atoi_big : Atoi "9223372036854775808" = None.
Proof. reflexivity. Qed.
Example itoa_ex : itoa 0 = "0" /\ itoa 1234 = "1234" /\ itoa (-1) = "-1".
Proof. repeat split; reflexivity. Qed.
Example env_name_ex : env_name "Content-Type" = "CONTENT_TYPE".
Proof. reflexivity. Qed.
Example eoh_crlf : eoh_FindIndex (go "A: b\r\n\r\nxyz") = Some (4%nat, 8%nat).
Proof. reflexivity. Qed.
Example eoh_mixed : eoh_FindIndex (go "A: b\n\r\nxyz") = Some (4%nat, 7%nat).
Proof. reflexivity. Qed.
Example eoh_none : eoh_FindIndex (go "A: b\r\nC: d\r\n") = None.
Proof. reflexivity. Qed.
Example status_re_ok : status_re "HTTP/1.1 200 OK" = Some "200".
Proof. reflexivity. Qed.
Example status_re_short : status_re "HTTP/200" = None.
Proof. reflexivity. Qed.
Example status_re_case : status_re "http/1.1 200" = None.
Proof. reflexivity. Qed.

(** ** Route parameters *)

Section UrlParam.

Variable ctx : NxContext.

Lemma UrlParam_in_range (i : Z) (s : string) :
  0 <= i -> params ctx !! Z.to_nat i = Some s -> NxCtx.UrlParam ctx i = Done s.
Proof.
  intros Hi Hs. unfold NxCtx.UrlParam.
  apply lookup_lt_Some in Hs as Hlt.
  replace (i <? Z.of_nat (length (params ctx))) with true
    by (symmetry; apply Z.ltb_lt; lia).
  replace (0 <=? i) with true by (symmetry; apply Z.leb_le; lia).
  now rewrite Hs.
Qed.

Lemma UrlParam_above (i : Z) :
  Z.of_nat (length (params ctx)) <= i -> NxCtx.UrlParam ctx i = Done "".
Proof.
  intros Hi. unfold NxCtx.UrlParam.
  replace (i <? Z.of_nat (length (params ctx))) with false
    by (symmetry; apply Z.ltb_ge; lia).
  reflexivity.
Qed.

(** C9 (the code departs from it): a negative index passes the guard
    [idx < len(self.params)] and the slice access that follows panics; the
    accessor does not return the empty string there. *)
Theorem UrlParam_negative_panics (i : Z) :
  i < 0 -> NxCtx.UrlParam ctx i = Panicked.
Proof.
  intros Hi. unfold NxCtx.UrlParam.
  replace (i <? Z.of_nat (length (params ctx))) with true
    by (symmetry; apply Z.ltb_lt; lia).
  replace (0 <=? i) with false by (symmetry; apply Z.leb_gt; lia).
  reflexivity.
Qed.

End UrlParam.

Lemma UrlParam_negative_panics_witness :
  -1 < 0 /\ NxCtx.UrlParam (mkContext ["42"; "7"] false []) (-1) = Panicked.
Proof.
  split; [lia | apply (UrlParam_negative_panics (mkContext ["42"; "7"] false []) (-1)); lia].
Defined.

(** ** Processor timeouts *)

Section Timeouts.

Implicit Types (h : gmap addr DefaultProcessor.t) (p q : addr) (i : Z).

Lemma SetTimeout_nonpos h p i : i <= 0 -> DefaultProcessor.SetTimeout p i h = h.
Proof.
  intros Hi. unfold DefaultProcessor.SetTimeout.
  destruct (0 <? i) eqn:E; [apply Z.ltb_lt in E; lia | reflexivity].
Qed.

Lemma SetTimeout_lookup h p q i :
  DefaultProcessor.SetTimeout p i h !! q =
    if decide (0 < i /\ p = q)
    then DefaultProcessor.with_timeout i <$> h !! q
    else h !! q.
Proof.
  unfold DefaultProcessor.SetTimeout.
  destruct (0 <? i) eqn:E.
  - apply Z.ltb_lt in E. rewrite lookup_alter.
    destruct (decide (p = q)) as [->|Hne].
    + rewrite decide_True by done. reflexivity.
    + rewrite decide_False by (intros [_ ?]; congruence). reflexivity.
  - apply Z.ltb_ge in E. rewrite decide_False by (intros [? _]; lia). reflexivity.
Qed.

Lemma SetTimeout_getnext h p q i :
  DefaultProcessor.getnext q (DefaultProcessor.SetTimeout p i h)
  = DefaultProcessor.getnext q h.
Proof.
  unfold DefaultProcessor.getnext. rewrite SetTimeout_lookup.
  case_decide; [|reflexivity]. destruct (h !! q); reflexivity.
Qed.

Lemma SetTimeout_keeps h p q i :
  deadline_bound h q -> deadline_bound (DefaultProcessor.SetTimeout p i h) q.
Proof.
  intros (d & Hd & Hpos). unfold deadline_bound. rewrite SetTimeout_lookup, Hd.
  case_decide as Hc.
  - exists (DefaultProcessor.with_timeout i d). split; [reflexivity|]. simpl. tauto.
  - exists d. split; [reflexivity | assumption].
Qed.

Lemma loop_keeps fuel : forall h (o : option addr) q i,
  deadline_bound h q -> deadline_bound (BaseEntry.loop fuel o i h) q.
Proof.
  induction fuel as [|fuel IH]; intros h o q i Hq; simpl.
  - destruct o; assumption.
  - destruct o as [a|]; [|assumption].
    apply IH. now apply SetTimeout_keeps.
Qed.

Lemma Entry_SetTimeout_nonpos fuel (e : BaseEntry.t) h i :
  i <= 0 -> BaseEntry.SetTimeout fuel e i h = h.
Proof.
  intros Hi. unfold BaseEntry.SetTimeout.
  destruct (0 <? i) eqn:E; [apply Z.ltb_lt in E; lia | reflexivity].
Qed.

Lemma timeout_op_keeps (o : TimeoutOp) h q :
  deadline_bound h q -> deadline_bound (timeout_op o h) q.
Proof.
  intros Hq. destruct o as [p i | fuel e i]; simpl.
  - now apply SetTimeout_keeps.
  - unfold BaseEntry.SetTimeout. destruct (0 <? i); [now apply loop_keeps | assumption].
Qed.

Lemma timeout_ops_keep (os : list TimeoutOp) : forall h q,
  deadline_bound h q -> deadline_bound (timeout_ops os h) q.
Proof.
  unfold timeout_ops.
  induction os as [|o os IH]; intros h q Hq; simpl; [assumption|].
  apply IH. now apply timeout_op_keeps.
Qed.

(** The loop of [BaseEntry.SetTimeout] ends on every chain that reaches
    [nil], and then has set exactly the processors of the chain. *)
Lemma path_SetTimeout h (o : option addr) l p i :
  path h o l -> path (DefaultProcessor.SetTimeout p i h) o l.
Proof.
  induction 1 as [|a d l Ha _ IH]; [constructor|].
  destruct (decide (0 < i /\ p = a)) as [Hc|Hc].
  - apply (path_cons _ a (DefaultProcessor.with_timeout i d)).
    + rewrite SetTimeout_lookup, decide_True, Ha by assumption. reflexivity.
    + exact IH.
  - apply (path_cons _ a d).
    + rewrite SetTimeout_lookup, decide_False by assumption. exact Ha.
    + exact IH.
Qed.

Lemma loop_finishes l : forall h (o : option addr) i,
  path h o l -> BaseEntry.finished (length l) o i h = true.
Proof.
  induction l as [|a l IH]; intros h o i Hp; inversion Hp; subst; simpl; [reflexivity|].
  apply IH. rewrite SetTimeout_getnext. unfold DefaultProcessor.getnext.
  match goal with H : h !! a = Some _ |- _ => rewrite H end. simpl.
  now apply path_SetTimeout.
Qed.

Lemma loop_sets l : forall h (o : option addr) i q,
  path h o l -> 0 < i ->
  BaseEntry.loop (length l) o i h !! q =
    if decide (q ∈ l) then DefaultProcessor.with_timeout i <$> h !! q else h !! q.
Proof.
  induction l as [|a l IH]; intros h o i q Hp Hi; inversion Hp; subst;
    cbn [BaseEntry.loop length].
  - destruct (decide (q ∈ [])) as [Hin|_]; [|reflexivity].
    now apply not_elem_of_nil in Hin.
  - rewrite (IH _ _ i q); [|
      rewrite SetTimeout_getnext; unfold DefaultProcessor.getnext;
      match goal with H : h !! a = Some _ |- _ => rewrite H end; cbn;
      now apply path_SetTimeout | assumption].
    rewrite SetTimeout_lookup.
    destruct (decide (q ∈ l)) as [Hin|Hin].
    + rewrite (decide_True (P := q ∈ a :: l)) by (apply elem_of_cons; now right).
      case_decide; [|reflexivity].
      destruct (h !! q); reflexivity.
    + destruct (decide (a = q)) as [->|Hne].
      * rewrite (decide_True (P := 0 < i /\ q = q)) by done.
        rewrite (decide_True (P := q ∈ q :: l)) by (apply elem_of_cons; now left).
        reflexivity.
      * rewrite (decide_False (P := 0 < i /\ a = q)) by (intros [_ ?]; congruence).
        rewrite (decide_False (P := q ∈ a :: l)); [reflexivity|].
        intros [->|?]%elem_of_cons; congruence.
Qed.

(** C10: a non-positive argument changes neither the processor nor any
    processor of an entry's chain, and no sequence of [SetTimeout] calls,
    on processors or on entries, takes a positive timeout away. *)
Theorem timeout_stays_positive h p i :
  i <= 0 ->
  DefaultProcessor.SetTimeout p i h = h
  /\ (forall fuel e, BaseEntry.SetTimeout fuel e i h = h)
  /\ (forall os, deadline_bound h p -> deadline_bound (timeout_ops os h) p).
Proof.
  intros Hi. split; [|split].
  - now apply SetTimeout_nonpos.
  - intros fuel e. now apply Entry_SetTimeout_nonpos.
  - intros os. apply timeout_ops_keep.
Qed.

End Timeouts.

Lemma timeout_stays_positive_witness :
  0 <= 0 /\
  DefaultProcessor.GetTimeout 2%nat
    (timeout_ops [OnProcessor 2%nat 0; OnEntry 5 entry_at_1 (-1); OnEntry 5 entry_at_1 250]
       two_processors) = Some 250
  /\ deadline_bound
       (timeout_ops [OnProcessor 2%nat 0; OnEntry 5 entry_at_1 (-1); OnEntry 5 entry_at_1 250]
          two_processors) 2%nat.
Proof.
  split; [lia|]. split; [vm_compute; reflexivity|].
  apply (timeout_stays_positive two_processors 2%nat 0); [lia|].
  exists (DefaultProcessor.mk "cgi" 3000 None). split; [reflexivity | simpl; lia].
Defined.

(** ** The subprocess environment *)

Section Environment.

Variable self : CgiProcessor.
Variable r : Request.

Lemma Split_without (c : ascii) (s : string) :
  has_byte c s = false -> Split c s = [s].
Proof.
  induction s as [|d s IH]; simpl; [reflexivity|].
  intros [Hd Hs]%orb_false_iff. rewrite Hd, (IH Hs). reflexivity.
Qed.

Lemma Split_at_first (c : ascii) (a b : string) :
  has_byte c a = false -> Split c (a +:+ String c b) = a :: Split c b.
Proof.
  induction a as [|d a IH]; simpl.
  - intros _. now rewrite Ascii.eqb_refl.
  - intros [Hd Ha]%orb_false_iff. rewrite Hd, (IH Ha). reflexivity.
Qed.

Lemma Split_nonempty (c : ascii) (s : string) : Split c s <> [].
Proof.
  induction s as [|d s IH]; simpl; [discriminate|].
  destruct (Ascii.eqb d c); [discriminate|].
  destruct (Split c s); [contradiction | discriminate].
Qed.

Lemma host_env_plain (name : string) :
  has_byte ":" name = false ->
  host_env name = [assign "SERVER_NAME" name; "SERVER_PORT=80"].
Proof. intros Hn. unfold host_env. now rewrite (Split_without _ _ Hn). Qed.

Lemma host_env_port (name port : string) :
  has_byte ":" name = false -> has_byte ":" port = false ->
  host_env (name +:+ ":" +:+ port)
  = [assign "SERVER_NAME" name; assign "SERVER_PORT" port].
Proof.
  intros Hn Hp. unfold host_env.
  change (":" +:+ port) with (String ":" port).
  now rewrite (Split_at_first _ _ _ Hn), (Split_without _ _ Hp).
Qed.

Lemma host_env_in_env (e : string) :
  In e (host_env (Host r)) -> In e (make_env self r).
Proof.
  intros He. unfold make_env, standard_env.
  apply in_or_app. right. apply in_or_app. left.
  apply in_or_app. right. exact He.
Qed.


(** *** Header-derived variables *)

Lemma header_env_app (hs1 hs2 : list (string * list string)) :
  header_env (hs1 ++ hs2) = header_env hs1 ++ header_env hs2.
Proof. unfold header_env. apply flat_map_app. Qed.

(** Each value of each header yields its own adjacent pair, in place. *)
Lemma header_env_value hs1 (H : string) vs1 (v : string) vs2 hs2 :
  header_env (hs1 ++ (H, vs1 ++ v :: vs2) :: hs2)
  = header_env (hs1 ++ [(H, vs1)])
    ++ [assign (env_name H) v; assign ("HTTP_" +:+ env_name H) v]
    ++ header_env ((H, vs2) :: hs2).
Proof.
  rewrite !header_env_app. rewrite <- app_assoc. f_equal.
  unfold header_env. cbn [List.flat_map fst snd].
  rewrite flat_map_app. cbn [List.flat_map].
  rewrite app_nil_r, <- !app_assoc. reflexivity.
Qed.

Lemma header_env_length (hs : list (string * list string)) :
  length (header_env hs) = (2 * length (List.concat (List.map snd hs)))%nat.
Proof.
  induction hs as [|[k vs] hs IH]; [reflexivity|].
  change (header_env ((k, vs) :: hs))
    with (List.flat_map (fun s => [assign (env_name k) s;
                                   assign ("HTTP_" +:+ env_name k) s]) vs
          ++ header_env hs).
  cbn [List.map List.concat snd]. rewrite !length_app, IH.
  assert (length (List.flat_map (fun s => [assign (env_name k) s;
                                   assign ("HTTP_" +:+ env_name k) s]) vs)
          = (2 * length vs)%nat) as ->; [|lia].
  induction vs as [|x vs IHvs]; simpl in *; lia.
Qed.


(** *** Which assignment the subprocess observes *)

Lemma Getenv_app (a b : list string) (k : string) :
  Getenv (a ++ b) k =
    match Getenv b k with
    | Some v => Some v
    | None => Getenv a k
    end.
Proof.
  induction a as [|e a IH]; simpl.
  - destruct (Getenv b k); reflexivity.
  - rewrite IH. destruct (Getenv b k); reflexivity.
Qed.

(** Every standard name is defined by the request, whatever the request. *)
Lemma standard_names_defined (k : string) :
  In k standard_names -> is_Some (Getenv (standard_env r) k).
Proof.
  intros Hk. unfold standard_env, host_env.
  destruct (Split ":" (Host r)) as [|h0 [|h1 t]];
    simpl in Hk; repeat destruct Hk as [<-|Hk]; try destruct Hk;
    eexists; reflexivity.
Qed.

(** C8 (as amended): collisions resolve last-write-wins, and the fixed
    configuration entries are the earliest assignment: a header-derived
    variable overrides a CGI-standard one, which overrides a fixed entry;
    the value of a fixed entry is observed only for a name that nothing
    later defines. *)
Theorem fixed_entries_come_first (k : string) :
  Getenv (make_env self r) k =
    match Getenv (header_env (Header r)) k with
    | Some v => Some v
    | None =>
        match Getenv (standard_env r) k with
        | Some v => Some v
        | None => Getenv (envs self) k
        end
    end.
Proof.
  unfold make_env. rewrite !Getenv_app.
  destruct (Getenv (header_env (Header r)) k); [reflexivity|].
  destruct (Getenv (standard_env r) k); reflexivity.
Qed.

End Environment.




(** C8 (as stated) fails: the fixed entry [SERVER_PORT=9000] is in the
    environment, and the subprocess observes the port of the request. *)
Lemma fixed_entry_overridden_counterexample :
  In "SERVER_PORT=9000" (envs echo_cgi)
  /\ Getenv (standard_env (get_report "api.example.com:8080")) "SERVER_PORT" = Some "8080"
  /\ Getenv (make_env echo_cgi (get_report "api.example.com:8080")) "SERVER_PORT"
     = Some "8080".
Proof. split; [simpl; tauto | split; reflexivity]. Qed.

Example environment_example_1 :
  make_env plain_cgi (mkRequest "GET" "/report" "x=1" 0 "api.example.com" [])
  = ["SERVER_PROTOCOL=HTTP/1.1"; "GATEWAY_INTERFACE=CGI/1.1"; "PATH_INFO=/report";
     "REQUEST_METHOD=GET"; "QUERY_STRING=x=1"; "CONTENT_LENGTH=0";
     "SERVER_NAME=api.example.com"; "SERVER_PORT=80"].
Proof. reflexivity. Qed.

(** ** The header block, line by line *)

Section HeaderLines.

Lemma add_calls_nil (ctx : NxContext) : add_calls [] ctx = ctx.
Proof. destruct ctx. unfold add_calls. simpl. now rewrite app_nil_r. Qed.

Lemma add_calls_app (cs1 cs2 : list Call) (ctx : NxContext) :
  add_calls cs2 (add_calls cs1 ctx) = add_calls (cs1 ++ cs2) ctx.
Proof. unfold add_calls. simpl. now rewrite app_assoc. Qed.

Lemma last_byte_nonempty (s : string) : s <> "" -> exists c, last_byte s = Done c.
Proof.
  induction s as [|a s IH]; [congruence|]. intros _.
  destruct s as [|b s]; [now exists a|].
  destruct IH as [c Hc]; [discriminate|]. exists c. exact Hc.
Qed.

(** A line that is not empty never panics: it sets the status, or one
    header, or nothing. *)
Lemma header_line_nonempty (s : string) (st : Z) (ctx : NxContext) :
  s <> "" ->
  header_line s st ctx
  = (Done (default st (sets_status s)), add_calls (line_calls s) ctx).
Proof.
  intros Hs. destruct (last_byte_nonempty s Hs) as [c Hc].
  unfold header_line, sets_status, status_header, status_line, line_calls,
    plain_header, chomp.
  rewrite Hc.
  destruct (SplitN2 ":" (if Ascii.eqb c CR then drop_last s else s))
    as [|p0 [|p1 rest]].
  - destruct (status_re _); simpl; unfold ret; now rewrite add_calls_nil.
  - destruct (status_re _); simpl; unfold ret; now rewrite add_calls_nil.
  - destruct (String.eqb (ToLower (Trim SP p0)) "status").
    + destruct (Atoi (Trim SP p1)); simpl; unfold ret; now rewrite add_calls_nil.
    + reflexivity.
Qed.

Lemma header_line_empty (st : Z) (ctx : NxContext) :
  header_line "" st ctx = (Panicked, ctx).
Proof. reflexivity. Qed.

Lemma header_lines_nonempty (lines : list string) : forall st ctx,
  Forall (fun l => l <> "") lines ->
  header_lines lines st ctx
  = (Done (List.fold_left next_status lines st),
     add_calls (List.flat_map line_calls lines) ctx).
Proof.
  induction lines as [|l lines IH]; intros st ctx Hall.
  - simpl. unfold ret. now rewrite add_calls_nil.
  - inversion Hall as [|? ? Hl Hrest]; subst.
    cbn [header_lines]. unfold bind. rewrite (header_line_nonempty _ _ _ Hl).
    rewrite (IH _ _ Hrest). cbn [List.fold_left List.flat_map].
    now rewrite add_calls_app.
Qed.

(** A block with an empty line panics, whatever stands around it. *)
Lemma header_lines_empty_line (lines : list string) : forall st ctx,
  In "" lines -> fst (header_lines lines st ctx) = Panicked.
Proof.
  induction lines as [|l lines IH]; intros st ctx Hin; [destruct Hin|].
  cbn [header_lines]. unfold bind.
  destruct (string_dec l "") as [->|Hl].
  - reflexivity.
  - rewrite (header_line_nonempty _ _ _ Hl).
    destruct Hin as [E|Hin]; [congruence|]. now apply IH.
Qed.

Lemma omap_cons' {A B} (f : A -> option B) (x : A) (l : list A) :
  omap f (x :: l) = match f x with Some y => y :: omap f l | None => omap f l end.
Proof. reflexivity. Qed.

Lemma fold_next_status (lines : list string) : forall st,
  List.fold_left next_status lines st = default st (last (omap sets_status lines)).
Proof.
  induction lines as [|l lines IH]; intros st; [reflexivity|].
  cbn [List.fold_left]. rewrite IH, omap_cons'. unfold next_status.
  destruct (sets_status l) as [x|]; [|reflexivity].
  rewrite last_cons. destruct (last (omap sets_status lines)); reflexivity.
Qed.

(** Where one line at most sets a status, the order of the lines does not
    matter and the status is the one the specification words. *)
Lemma setters_exclusive (l : string) : status_header l = None \/ status_line l = None.
Proof.
  unfold status_header, status_line.
  destruct (SplitN2 ":" (chomp l)) as [|p0 [|p1 rest]]; auto.
Qed.

Lemma no_setter (lines : list string) :
  omap sets_status lines = [] ->
  omap status_header lines = [] /\ omap status_line lines = [].
Proof.
  induction lines as [|l lines IH]; [auto|].
  rewrite !omap_cons'. unfold sets_status at 1.
  destruct (status_header l); [discriminate|].
  destruct (status_line l); [discriminate|]. exact IH.
Qed.

Lemma one_setter (lines : list string) (x : Z) :
  omap sets_status lines = [x] ->
  (omap status_header lines = [x] /\ omap status_line lines = [])
  \/ (omap status_header lines = [] /\ omap status_line lines = [x]).
Proof.
  induction lines as [|l lines IH]; [discriminate|].
  rewrite !omap_cons'. unfold sets_status at 1.
  destruct (setters_exclusive l) as [E|E]; rewrite E.
  - destruct (status_line l) as [y|].
    + intros H. injection H as -> H. apply no_setter in H as [-> ->]. now right.
    + exact IH.
  - destruct (status_header l) as [y|].
    + intros H. injection H as -> H. apply no_setter in H as [-> ->]. now left.
    + exact IH.
Qed.

Lemma claimed_status_single (lines : list string) :
  (length (omap sets_status lines) <= 1)%nat ->
  claimed_status lines = effective_status lines.
Proof.
  unfold claimed_status, effective_status.
  destruct (omap sets_status lines) as [|x [|y t]] eqn:E.
  - intros _. apply no_setter in E as [-> ->]. reflexivity.
  - intros _. apply one_setter in E as [[-> ->]|[-> ->]]; reflexivity.
  - simpl. lia.
Qed.

Lemma line_calls_not_status (line k v : string) :
  In (HeaderSet k v) (line_calls line) -> ToLower k <> "status".
Proof.
  unfold line_calls, plain_header.
  destruct (SplitN2 ":" (chomp line)) as [|p0 [|p1 rest]]; try (intros []).
  destruct (String.eqb (ToLower (Trim SP p0)) "status") eqn:E; [intros []|].
  intros [H|[]]. injection H as <- <-. now apply String.eqb_neq.
Qed.

Lemma committed_app (cs1 cs2 : list Call) :
  committed (cs1 ++ cs2) =
    match committed cs1 with
    | Some st => Some st
    | None => committed cs2
    end.
Proof.
  unfold committed. rewrite omap_app.
  destruct (omap commits cs1); reflexivity.
Qed.

Lemma committed_line_calls (lines : list string) :
  committed (List.flat_map line_calls lines) = None.
Proof.
  induction lines as [|l lines IH]; [reflexivity|].
  cbn [List.flat_map]. rewrite committed_app, IH.
  unfold line_calls. destruct (plain_header l) as [[k v]|]; reflexivity.
Qed.

Lemma committed_after_headers (lines : list string) (st : Z) (rest : list Call) :
  final_code st = true ->
  committed (List.flat_map line_calls lines ++ WriteHeader st :: rest) = Some st.
Proof.
  intros Hst. rewrite committed_app, committed_line_calls.
  unfold committed. rewrite omap_cons'. cbn [commits]. now rewrite Hst.
Qed.

Lemma final_code_valid (st : Z) : final_code st = true -> valid_code st = true.
Proof. unfold final_code. now intros [? _]%andb_true_iff. Qed.

Lemma header_sets_lines (lines : list string) (st : Z) (bs : list string) :
  header_sets (List.flat_map line_calls lines ++ WriteHeader st :: List.map Write bs)
  = omap plain_header lines.
Proof.
  unfold header_sets.
  induction lines as [|l lines IH].
  - simpl. induction bs as [|b bs IHb]; [reflexivity | exact IHb].
  - cbn [List.flat_map]. rewrite <- app_assoc, omap_cons'.
    unfold line_calls at 1. destruct (plain_header l) as [[k v]|]; simpl.
    + f_equal. exact IH.
    + exact IH.
Qed.

End HeaderLines.

(** ** The read buffer and the separator search *)

Section Buffer.

Lemma nul_not_cr_lf : Ascii.eqb NUL CR = false /\ Ascii.eqb NUL LF = false.
Proof. split; reflexivity. Qed.

Lemma all_nul_head (c : ascii) (p : string) :
  all_nul (String c p) = true -> c = NUL /\ all_nul p = true.
Proof.
  simpl. intros [Hc Hp]%andb_true_iff. split; [|exact Hp].
  now apply Ascii.eqb_eq.
Qed.

Lemma all_nul_make (n : nat) : all_nul (make n) = true.
Proof. induction n as [|n IH]; [reflexivity | exact IH]. Qed.

Lemma all_nul_skip (n : nat) : forall b, all_nul b = true -> all_nul (skip n b) = true.
Proof.
  induction n as [|n IH]; intros b Hb; [exact Hb|].
  destruct b as [|c b]; [reflexivity|].
  apply all_nul_head in Hb as [_ Hb]. now apply IH.
Qed.

Lemma skip_skip (n m : nat) : forall b, skip n (skip m b) = skip (m + n) b.
Proof.
  induction m as [|m IH]; intros b; [reflexivity|].
  destruct b as [|c b]; [destruct n; reflexivity | apply IH].
Qed.

Lemma skip_app_length (c b : string) : skip (String.length c) (c +:+ b) = b.
Proof. induction c as [|a c IH]; [reflexivity | exact IH]. Qed.

(** Zero bytes behind the data neither complete nor start a separator. *)
Lemma append_cons (a : ascii) (c p : string) : String a c +:+ p = String a (c +:+ p).
Proof. reflexivity. Qed.

Lemma append_empty (c : string) : c +:+ "" = c.
Proof. induction c as [|a c IH]; [reflexivity|]. now rewrite append_cons, IH. Qed.

Lemma eoh_here_pad (c p : string) :
  all_nul p = true -> eoh_here (c +:+ p) = eoh_here c.
Proof.
  intros Hp.
  assert (p = "" \/ exists p', p = String NUL p') as [->|[p' ->]].
  { destruct p as [|a p]; [now left | right].
    apply all_nul_head in Hp as [-> _]. now exists p. }
  - now rewrite append_empty.
  - destruct nul_not_cr_lf as [Hcr Hlf].
    unfold eoh_here, optCR, expLF.
    destruct c as [|c1 [|c2 [|c3 [|c4 c]]]]; rewrite ?append_cons;
      change ("" +:+ String NUL p') with (String NUL p');
      rewrite ?Hcr, ?Hlf;
      repeat match goal with
        | |- context [Ascii.eqb ?a ?b] =>
            lazymatch a with
            | NUL => fail
            | _ => destruct (Ascii.eqb a b)
            end
        end; rewrite ?Hcr, ?Hlf; reflexivity.
Qed.

Lemma eoh_from_nul (p : string) : forall pos,
  all_nul p = true -> eoh_from pos p = None.
Proof.
  induction p as [|a p IH]; intros pos Hp; [reflexivity|].
  apply all_nul_head in Hp as [-> Hp].
  cbn [eoh_from]. change (eoh_here (String NUL p)) with (@None nat).
  now apply IH.
Qed.

Lemma eoh_from_pad (c p : string) : forall pos,
  all_nul p = true -> eoh_from pos (c +:+ p) = eoh_from pos c.
Proof.
  induction c as [|a c IH]; intros pos Hp.
  - simpl String.append. now rewrite eoh_from_nul.
  - change (String a c +:+ p) with (String a (c +:+ p)).
    cbn [eoh_from].
    change (String a (c +:+ p)) with (String a c +:+ p).
    rewrite (eoh_here_pad _ _ Hp). destruct (eoh_here (String a c)); [reflexivity|].
    now apply IH.
Qed.

Lemma eoh_here_bound (s : string) (l : nat) :
  eoh_here s = Some l -> (2 <= l <= String.length s)%nat.
Proof.
  unfold eoh_here, optCR, expLF.
  destruct s as [|c1 [|c2 [|c3 [|c4 s]]]]; simpl;
    repeat match goal with
      | |- context [Ascii.eqb ?a ?b] => destruct (Ascii.eqb a b)
      end; simpl; intros H; try discriminate; injection H as <-; lia.
Qed.

Lemma eoh_from_bound (s : string) : forall pos i0 i1,
  eoh_from pos s = Some (i0, i1) ->
  (pos <= i0 /\ i0 + 2 <= i1 /\ i1 <= pos + String.length s)%nat.
Proof.
  induction s as [|a s IH]; intros pos i0 i1; cbn [eoh_from].
  - change (eoh_here "") with (@None nat). discriminate.
  - destruct (eoh_here (String a s)) as [l|] eqn:E.
    + apply eoh_here_bound in E. intros H. injection H as <- <-. simpl in *. lia.
    + intros H. apply IH in H. simpl. lia.
Qed.

Lemma substring_app_l (c p : string) : forall a l,
  (a + l <= String.length c)%nat -> String.substring a l (c +:+ p) = String.substring a l c.
Proof.
  induction c as [|x c IH]; intros a l Hl; simpl in Hl.
  - assert (a = 0%nat) as -> by lia. assert (l = 0%nat) as -> by lia.
    destruct p; reflexivity.
  - destruct a as [|a].
    + destruct l as [|l]; [reflexivity|]. simpl. f_equal. apply IH. lia.
    + simpl. apply IH. lia.
Qed.

Lemma slice_app_l (c p : string) (lo hi : nat) :
  (lo <= hi <= String.length c)%nat -> slice (c +:+ p) lo hi = slice c lo hi.
Proof. intros H. unfold slice. apply substring_app_l. lia. Qed.

Lemma slice_all (c : string) : slice c 0 (String.length c) = c.
Proof.
  unfold slice. rewrite Nat.sub_0_r.
  induction c as [|x c IH]; [reflexivity|]. simpl. now rewrite IH.
Qed.

Lemma clean_read (k : nat) (b c : string) :
  clean_from k b -> (k <= String.length c)%nat ->
  all_nul (skip (String.length c) b) = true
  /\ clean_from (String.length c) (read_into b c).
Proof.
  intros Hb Hk.
  assert (all_nul (skip (String.length c) b) = true) as Hs.
  { replace (String.length c) with (k + (String.length c - k))%nat by lia.
    rewrite <- skip_skip. now apply all_nul_skip. }
  split; [exact Hs|].
  unfold clean_from, read_into. now rewrite skip_app_length.
Qed.

Lemma clean_start : clean_from 0 (buf start).
Proof. apply all_nul_make. Qed.

End Buffer.

(** ** The stdout goroutine *)

Section Translator.

Lemma scan_clean (k : nat) (b c : string) :
  clean_from k b -> (k <= String.length c)%nat ->
  eoh_FindIndex (read_into b c) = eoh_FindIndex c.
Proof.
  intros Hb Hk. unfold eoh_FindIndex, read_into.
  apply eoh_from_pad. now apply (clean_read k).
Qed.

Lemma slice_read (b c : string) (lo hi : nat) :
  (lo <= hi <= String.length c)%nat -> slice (read_into b c) lo hi = slice c lo hi.
Proof. apply slice_app_l. Qed.

(** The first chunk, holding the separator, with no empty line before it
    and the response not stopped: the headers are set, the status is
    committed, and the body bytes that pass the guard are written. *)
Lemma first_chunk (c : string) (i0 i1 : nat) (re we : bool) (ctx : NxContext) :
  c <> "" ->
  eoh_FindIndex c = Some (i0, i1) ->
  Forall (fun l => l <> "") (Split LF (slice c 0 i0)) ->
  stopped ctx = false ->
  valid_code (effective_status (Split LF (slice c 0 i0))) = true ->
  exists w',
    round (mkRound c re we) start ctx
    = (Done w',
       add_calls (List.flat_map line_calls (Split LF (slice c 0 i0))
                  ++ WriteHeader (effective_status (Split LF (slice c 0 i0)))
                     :: List.map Write (first_body c i1)) ctx)
    /\ isheader w' = false
    /\ status w' = effective_status (Split LF (slice c 0 i0)).
Proof.
  intros Hc Hidx Hlines Hrun Hvalid.
  assert (Hb := eoh_from_bound _ _ _ _ Hidx). simpl in Hb.
  unfold round. cbn [data read_err write_err buf isheader hdr status start].
  assert ((0 <? Z.of_nat (String.length c)) = true) as ->.
  { apply Z.ltb_lt. destruct c; [congruence | simpl; lia]. }
  rewrite (scan_clean 0) by first [apply all_nul_make | lia]. rewrite Hidx.
  rewrite slice_read by lia.
  change ("" +:+ slice c 0 i0) with (slice c 0 i0).
  unfold bind. rewrite (header_lines_nonempty _ _ _ Hlines).
  rewrite fold_next_status. fold (effective_status (Split LF (slice c 0 i0))).
  unfold NxCtx.IsStopped. cbn [add_calls stopped]. rewrite Hrun. cbn [negb].
  unfold write_header. rewrite Hvalid. cbn [res params stopped].
  assert (forall o : option Z, match o with Some _ => Done tt | None => Done tt end
                               = Done tt) as -> by (now intros []).
  unfold first_body.
  destruct (Z.of_nat i1 <? Z.of_nat (String.length c) - 1) eqn:E.
  - rewrite slice_read by lia.
    eexists. split.
    { unfold call, ret, add_calls. cbn [params stopped res List.map].
      rewrite <- !app_assoc. reflexivity. }
    split; reflexivity.
  - eexists. split.
    { unfold call, ret, add_calls. cbn [params stopped res List.map].
      rewrite <- !app_assoc. reflexivity. }
    split; reflexivity.
Qed.

(** A status that is no valid code: [WriteHeader] panics in the goroutine
    before anything is committed. *)
Lemma first_chunk_invalid (c : string) (i0 i1 : nat) (re we : bool) (ctx : NxContext) :
  c <> "" ->
  eoh_FindIndex c = Some (i0, i1) ->
  Forall (fun l => l <> "") (Split LF (slice c 0 i0)) ->
  stopped ctx = false -> committed (res ctx) = None ->
  valid_code (effective_status (Split LF (slice c 0 i0))) = false ->
  round (mkRound c re we) start ctx
  = (Panicked,
     add_calls (List.flat_map line_calls (Split LF (slice c 0 i0))
                ++ [WriteHeader (effective_status (Split LF (slice c 0 i0)))]) ctx).
Proof.
  intros Hc Hidx Hlines Hrun Hnone Hinvalid.
  assert (Hb := eoh_from_bound _ _ _ _ Hidx). simpl in Hb.
  unfold round. cbn [data read_err write_err buf isheader hdr status start].
  assert ((0 <? Z.of_nat (String.length c)) = true) as ->.
  { apply Z.ltb_lt. destruct c; [congruence | simpl; lia]. }
  rewrite (scan_clean 0) by first [apply all_nul_make | lia]. rewrite Hidx.
  rewrite slice_read by lia.
  change ("" +:+ slice c 0 i0) with (slice c 0 i0).
  unfold bind. rewrite (header_lines_nonempty _ _ _ Hlines).
  rewrite fold_next_status. fold (effective_status (Split LF (slice c 0 i0))).
  unfold NxCtx.IsStopped. cbn [add_calls stopped]. rewrite Hrun. cbn [negb].
  unfold write_header. rewrite Hinvalid. cbn [add_calls res params stopped].
  rewrite committed_app, Hnone, committed_line_calls.
  now rewrite <- app_assoc.
Qed.

Lemma body_after_headers (lines : list string) (st : Z) (bs : list string) :
  body (List.flat_map line_calls lines ++ WriteHeader st :: List.map Write bs) = bs.
Proof.
  unfold body.
  induction lines as [|l lines IH].
  - simpl. induction bs as [|b bs IHb]; [reflexivity|]. simpl. f_equal. exact IHb.
  - cbn [List.flat_map]. rewrite <- app_assoc.
    unfold line_calls at 1. destruct (plain_header l) as [[k v]|]; exact IH.
Qed.

Lemma committed_headers_then (lines : list string) (st : Z) (rest : list Call) :
  committed (List.flat_map line_calls lines ++ WriteHeader st :: rest)
  = if final_code st then Some st else committed rest.
Proof.
  rewrite committed_app, committed_line_calls.
  unfold committed. rewrite omap_cons'. cbn [commits].
  now destruct (final_code st).
Qed.

Lemma committed_writes (bs : list string) :
  committed (List.map Write bs) = match bs with [] => None | _ => Some 200 end.
Proof. now destruct bs. Qed.


(** C5 (the code departs from it): when exactly one body byte follows the
    separator in the chunk, [idx[1] = n-1], the guard [idx[1] < n-1] is
    false: the byte is never written, whatever the header block; with a final
    status (101, or 200 to 999) the goroutine goes on and that status is
    committed.  (With another status the byte is not written either: an
    informational one commits nothing, and one that is no valid code makes
    [WriteHeader] panic.) *)
Theorem single_body_byte_dropped (c : string) (i0 i1 : nat) (ps : list string) :
  eoh_FindIndex c = Some (i0, i1) ->
  S i1 = String.length c ->
  Forall (fun l => l <> "") (Split LF (slice c 0 i0)) ->
  exists r ctx,
    rounds [chunk c] start (fresh ps) = (r, ctx)
    /\ body (res ctx) = []
    /\ (final_code (effective_status (Split LF (slice c 0 i0))) = true ->
          (exists w, r = Done w)
          /\ committed (res ctx) = Some (effective_status (Split LF (slice c 0 i0)))).
Proof.
  intros Hidx Hn Hlines.
  assert (c <> "") as Hc by (intros ->; discriminate).
  assert (first_body c i1 = []) as Hb.
  { unfold first_body.
    replace (Z.of_nat i1 <? Z.of_nat (String.length c) - 1) with false; [reflexivity|].
    symmetry. apply Z.ltb_ge. lia. }
  destruct (valid_code (effective_status (Split LF (slice c 0 i0)))) eqn:Hvalid.
  - destruct (first_chunk c i0 i1 false false (fresh ps) Hc Hidx Hlines eq_refl Hvalid)
      as (w & Hw & _ & _).
    rewrite Hb in Hw.
    eexists _, _. split; [|split].
    + cbn [rounds]. unfold bind, chunk. rewrite Hw. destruct (stop w); reflexivity.
    + cbn [add_calls res fresh app]. apply (body_after_headers _ _ []).
    + intros Hfinal. split; [now exists w|].
      cbn [add_calls res fresh app]. now apply committed_after_headers.
  - assert (Hp := first_chunk_invalid c i0 i1 false false (fresh ps) Hc Hidx Hlines
                    eq_refl eq_refl Hvalid).
    eexists _, _. split; [|split].
    + cbn [rounds]. unfold bind, chunk. rewrite Hp. reflexivity.
    + cbn [add_calls res fresh app]. apply (body_after_headers _ _ []).
    + intros Hfinal. apply final_code_valid in Hfinal. congruence.
Qed.

(** C3 (the code departs from it): a header block with an empty line --
    the block itself empty, or a blank first line, or any other -- makes
    [s[len(s)-1]] panic in the stdout goroutine. *)
Theorem empty_header_line_panics (c : string) (i0 i1 : nat) (ctx : NxContext) :
  eoh_FindIndex c = Some (i0, i1) ->
  In "" (Split LF (slice c 0 i0)) ->
  fst (rounds [chunk c] start ctx) = Panicked.
Proof.
  intros Hidx Hin.
  assert (Hb := eoh_from_bound _ _ _ _ Hidx). simpl in Hb.
  cbn [rounds]. unfold bind at 1.
  unfold round, chunk. cbn [data read_err write_err buf isheader hdr status start].
  assert ((0 <? Z.of_nat (String.length c)) = true) as -> by (apply Z.ltb_lt; lia).
  rewrite (scan_clean 0) by first [apply all_nul_make | lia]. rewrite Hidx.
  rewrite slice_read by lia.
  change ("" +:+ slice c 0 i0) with (slice c 0 i0).
  unfold bind at 1.
  assert (H := header_lines_empty_line (Split LF (slice c 0 i0)) 200 ctx Hin).
  destruct (header_lines (Split LF (slice c 0 i0)) 200 ctx) as [[st|] ctx'];
    [discriminate | reflexivity].
Qed.

(** While no separator is found the goroutine only accumulates. *)
Lemma round_accumulates (r : Round) (w : Worker) (ctx : NxContext) (k : nat) :
  isheader w = true ->
  clean_from k (buf w) ->
  data r = "" \/ (k <= String.length (data r))%nat ->
  no_separator r = true ->
  round r w ctx
  = (Done (mkWorker (read_into (buf w) (data r)) true (status w)
             (hdr w +:+ data r) (read_err r)), ctx).
Proof.
  intros Hh Hclean Hk Hsep. unfold round. rewrite Hh.
  destruct Hk as [He|Hk].
  - rewrite He. cbn [String.length Z.of_nat Z.ltb Z.compare].
    unfold ret. now rewrite append_empty.
  - rewrite (scan_clean k) by assumption.
    unfold no_separator in Hsep.
    destruct (eoh_FindIndex (data r)) as [idx|]; [discriminate|].
    destruct (0 <? Z.of_nat (String.length (data r))) eqn:E.
    + rewrite slice_read by lia. now rewrite slice_all.
    + apply Z.ltb_ge in E. destruct (data r) as [|a d]; [|simpl in E; lia].
      unfold ret. now rewrite append_empty.
Qed.

Lemma append_assoc (a b c : string) : (a +:+ b) +:+ c = a +:+ (b +:+ c).
Proof. induction a as [|x a IH]; [reflexivity|]. now rewrite !append_cons, IH. Qed.

Lemma rounds_accumulate (rs : list Round) : forall (w : Worker) (ctx : NxContext) (k : nat),
  isheader w = true ->
  clean_from k (buf w) ->
  growing k rs = true ->
  forallb no_separator rs = true ->
  exists w',
    rounds rs w ctx = (Done w', ctx)
    /\ isheader w' = true
    /\ status w' = status w
    /\ hdr w' = hdr w +:+ concat_data (executed rs).
Proof.
  induction rs as [|r rs IH]; intros w ctx k Hh Hclean Hgrow Hsep.
  - exists w. repeat split; try assumption. simpl. now rewrite append_empty.
  - cbn [growing forallb] in Hgrow, Hsep.
    apply andb_true_iff in Hsep as [Hr Hsep].
    assert (exists k', (data r = "" \/ (k <= String.length (data r))%nat)
                       /\ clean_from k' (read_into (buf w) (data r))
                       /\ growing k' rs = true) as (k' & Hk & Hclean' & Hgrow').
    { destruct (data r) as [|a d] eqn:E.
      - exists k. split; [now left|]. split; [exact Hclean | exact Hgrow].
      - apply andb_true_iff in Hgrow as [Hk Hgrow]. apply Nat.leb_le in Hk.
        exists (String.length (String a d)). split; [now right|].
        split; [now apply (clean_read k) | exact Hgrow]. }
    cbn [rounds]. unfold bind.
    rewrite (round_accumulates r w ctx k Hh Hclean Hk Hr). cbn [stop executed].
    destruct (read_err r).
    + eexists. split; [reflexivity|]. cbn [isheader status hdr concat_data].
      now rewrite append_empty.
    + destruct (IH (mkWorker (read_into (buf w) (data r)) true (status w)
                      (hdr w +:+ data r) false) ctx k')
        as (w' & Hw' & Hh' & Hs' & Hhdr'); try assumption; [reflexivity|].
      exists w'. split; [exact Hw'|]. split; [exact Hh'|]. split; [exact Hs'|].
      rewrite Hhdr'. cbn [hdr concat_data]. apply append_assoc.
Qed.

(** C2 (as amended): in the header-reading state the goroutine searches
    its read buffer after each read and never the header bytes it has
    accumulated.  When every read that delivers bytes is at least as long
    as the one before and none holds a complete separator, no separator is
    detected --
    also when its bytes are split across two consecutive reads: the
    goroutine keeps accumulating and nothing at all is called on the
    response. *)
Theorem split_separator_not_detected (rs : list Round) (ctx : NxContext) :
  growing 0 rs = true ->
  forallb no_separator rs = true ->
  exists w,
    rounds rs start ctx = (Done w, ctx)
    /\ isheader w = true
    /\ hdr w = concat_data (executed rs).
Proof.
  intros Hgrow Hsep.
  destruct (rounds_accumulate rs start ctx 0 eq_refl clean_start Hgrow Hsep)
    as (w & Hw & Hh & _ & Hhdr).
  exists w. split; [exact Hw|]. split; [exact Hh|]. exact Hhdr.
Qed.

End Translator.


(** ** After the response has been ended *)

Section Termination.

Lemma quiet_refl (ctx : NxContext) : quiet ctx ctx.
Proof. split; reflexivity. Qed.

Lemma quiet_trans (a b c : NxContext) : quiet a b -> quiet b c -> quiet a c.
Proof. intros [H1 H2] [H3 H4]. split; congruence. Qed.

Lemma wire_app (cs1 cs2 : list Call) : wire (cs1 ++ cs2) = wire cs1 ++ wire cs2.
Proof. unfold wire. apply List.filter_app. Qed.

Lemma body_wire (cs : list Call) : body (wire cs) = body cs.
Proof.
  induction cs as [|c cs IH]; [reflexivity|].
  unfold body, wire in *.
  destruct c; cbn [List.filter on_wire]; rewrite ?omap_cons'; now rewrite IH.
Qed.

Lemma quiet_line_calls (s : string) (ctx : NxContext) :
  quiet ctx (add_calls (line_calls s) ctx).
Proof.
  split; [reflexivity|]. cbn [add_calls res]. rewrite wire_app.
  unfold line_calls. destruct (plain_header s) as [[k v]|]; simpl; apply app_nil_r.
Qed.

Lemma header_line_quiet (s : string) (st : Z) (ctx : NxContext) :
  quiet ctx (snd (header_line s st ctx)).
Proof.
  destruct (string_dec s "") as [->|Hs].
  - apply quiet_refl.
  - rewrite (header_line_nonempty _ _ _ Hs). apply quiet_line_calls.
Qed.

Lemma header_lines_quiet (lines : list string) : forall st ctx,
  quiet ctx (snd (header_lines lines st ctx)).
Proof.
  induction lines as [|l lines IH]; intros st ctx; [apply quiet_refl|].
  cbn [header_lines]. unfold bind.
  assert (Hl := header_line_quiet l st ctx).
  destruct (header_line l st ctx) as [[st'|] ctx']; cbn [snd] in *; [|exact Hl].
  exact (quiet_trans _ _ _ Hl (IH st' ctx')).
Qed.

(** Once [stopped] is set a round of the goroutine writes nothing. *)
Lemma round_when_stopped (r : Round) (w : Worker) (ctx : NxContext) :
  stopped ctx = true -> quiet ctx (snd (round r w ctx)).
Proof.
  intros Hs. unfold round.
  destruct (0 <? Z.of_nat (String.length (data r))); [|apply quiet_refl].
  destruct (isheader w).
  - destruct (eoh_FindIndex (read_into (buf w) (data r))) as [[i0 i1]|];
      [|apply quiet_refl].
    unfold bind at 1.
    assert (Hq := header_lines_quiet
                    (Split LF (hdr w +:+ slice (read_into (buf w) (data r)) 0 i0))
                    (status w) ctx).
    destruct (header_lines _ (status w) ctx) as [[st|] ctx']; cbn [snd] in *;
      [|exact Hq].
    unfold bind, NxCtx.IsStopped.
    destruct Hq as [Hst Hw]. rewrite Hst, Hs. cbn [negb snd ret].
    split; congruence.
  - unfold bind, NxCtx.IsStopped. rewrite Hs. apply quiet_refl.
Qed.

Lemma End_when_stopped (st : Z) (ctx : NxContext) :
  stopped ctx = true -> NxCtx.End st ctx = (Done tt, ctx).
Proof. intros Hs. unfold NxCtx.End. now rewrite Hs. Qed.

Lemma End_first (st : Z) (ctx : NxContext) :
  stopped ctx = false ->
  snd (NxCtx.End st ctx) = mkContext (params ctx) true (res ctx ++ [WriteHeader st]).
Proof. intros Hs. unfold NxCtx.End. now rewrite Hs. Qed.

Lemma op_when_stopped (o : Op) (w : Worker) (ctx : NxContext) :
  no_send o = true -> stopped ctx = true -> quiet ctx (snd (op o w ctx)).
Proof.
  intros Ho Hs. destruct o as [st|b|t|r]; try discriminate; cbn [op].
  - unfold bind. rewrite (End_when_stopped _ _ Hs). apply quiet_refl.
  - destruct (stop w); [apply quiet_refl | now apply round_when_stopped].
Qed.

Lemma ops_when_stopped (os : list Op) : forall (w : Worker) (ctx : NxContext),
  forallb no_send os = true -> stopped ctx = true ->
  quiet ctx (snd (ops os w ctx)).
Proof.
  induction os as [|o os IH]; intros w ctx Hos Hs; [apply quiet_refl|].
  cbn [forallb] in Hos. apply andb_true_iff in Hos as [Ho Hos].
  cbn [ops]. unfold bind.
  assert (Hq := op_when_stopped o w ctx Ho Hs).
  destruct (op o w ctx) as [[w'|] ctx']; cbn [snd] in *; [|exact Hq].
  apply (quiet_trans _ _ _ Hq). apply IH; [exact Hos|].
  destruct Hq as [Hst _]. congruence.
Qed.

(** A round whose write fails is the last one. *)
Lemma failed_write_cases (r : Round) (w : Worker) (ctx : NxContext) :
  write_err r = true ->
  match round r w ctx with
  | (Done w', ctx') => stop w' = true \/ body (res ctx') = body (res ctx)
  | (Panicked, ctx') => body (res ctx') = body (res ctx)
  end.
Proof.
  intros He. unfold round.
  destruct (0 <? Z.of_nat (String.length (data r))); [|right; reflexivity].
  destruct (isheader w).
  - destruct (eoh_FindIndex (read_into (buf w) (data r))) as [[i0 i1]|];
      [|right; reflexivity].
    unfold bind at 1.
    assert (Hq := header_lines_quiet
                    (Split LF (hdr w +:+ slice (read_into (buf w) (data r)) 0 i0))
                    (status w) ctx).
    destruct (header_lines _ (status w) ctx) as [[st|] ctx']; cbn [snd] in Hq;
      destruct Hq as [_ Hw]; apply (f_equal body) in Hw; rewrite !body_wire in Hw;
      [|exact Hw].
    unfold bind, NxCtx.IsStopped.
    destruct (stopped ctx'); cbn [negb]; [right; exact Hw|].
    assert (body (res ctx' ++ [WriteHeader st]) = body (res ctx)) as Hw'.
    { unfold body in *. rewrite omap_app. cbn. now rewrite app_nil_r. }
    unfold call, write_header. cbn [params stopped res].
    destruct (match committed (res ctx') with
              | Some _ => Done tt
              | None => if valid_code st then Done tt else Panicked
              end); [|exact Hw'].
    destruct (Z.of_nat i1 <? Z.of_nat (String.length (data r)) - 1).
    + left. cbn [stop]. rewrite He. apply orb_true_r.
    + right. exact Hw'.
  - unfold bind, NxCtx.IsStopped.
    destruct (stopped ctx); cbn [negb]; [right; reflexivity|].
    left. cbn [stop]. rewrite He. apply orb_true_r.
Qed.

Lemma failed_write_stops (r : Round) (w : Worker) (ctx : NxContext) :
  write_err r = true ->
  body (res (snd (round r w ctx))) <> body (res ctx) ->
  exists w', fst (round r w ctx) = Done w' /\ stop w' = true.
Proof.
  intros He Hb. assert (H := failed_write_cases r w ctx He).
  destruct (round r w ctx) as [[w'|] ctx']; cbn [snd fst] in *.
  - destruct H as [H|H]; [|contradiction]. now exists w'.
  - contradiction.
Qed.

(** C4 (as amended): the first [End] writes the status line and sets
    [stopped]; from then on further [End] calls are no-ops and no round of
    the stdout goroutine puts anything on the wire, whatever the subprocess
    still sends.  A round of the goroutine whose body write fails is its
    last: what the subprocess sends afterwards is not read.  ([SendBytes] and
    [SendString] are not part of this: they write whatever [stopped] is.) *)
Theorem nothing_after_termination
    (os : list Op) (w : Worker) (ctx : NxContext) (st : Z)
    (r : Round) (rest : list Round) :
  forallb no_send os = true ->
  (stopped (snd (NxCtx.End st ctx)) = true
   /\ (stopped ctx = false ->
         res (snd (NxCtx.End st ctx)) = res ctx ++ [WriteHeader st])
   /\ (stopped ctx = true -> snd (NxCtx.End st ctx) = ctx)
   /\ wire (res (snd (ops os w (snd (NxCtx.End st ctx)))))
      = wire (res (snd (NxCtx.End st ctx))))
  /\ (write_err r = true ->
      body (res (snd (round r w ctx))) <> body (res ctx) ->
      rounds (r :: rest) w ctx = round r w ctx).
Proof.
  intros Hos. split; [split; [|split; [|split]]|].
  - unfold NxCtx.End. destruct (stopped ctx) eqn:E; [exact E | reflexivity].
  - intros Hs. now rewrite (End_first _ _ Hs).
  - intros Hs. now rewrite (End_when_stopped _ _ Hs).
  - apply ops_when_stopped; [exact Hos|].
    unfold NxCtx.End. destruct (stopped ctx) eqn:E; [exact E | reflexivity].
  - intros He Hb. destruct (failed_write_stops r w ctx He Hb) as (w' & Hw' & Hstop).
    cbn [rounds]. unfold bind.
    destruct (round r w ctx) as [[w''|] ctx']; [|reflexivity].
    cbn [fst] in Hw'. injection Hw' as ->. now rewrite Hstop.
Qed.

End Termination.

Lemma nothing_after_termination_witness :
  wire (res (snd (ops [OpEnd 200; OpRound (chunk (go "A: b\n\nbody")); OpEnd 404]
                    start (snd (NxCtx.End 500 (fresh []))))))
  = [WriteHeader 500]
  /\ rounds [mkRound (go "\n\nbody") false true; chunk "more"]
       (mkWorker (make 512) false 200 "" false) (fresh [])
     = round (mkRound (go "\n\nbody") false true)
         (mkWorker (make 512) false 200 "" false) (fresh []).
Proof.
  split.
  - apply (nothing_after_termination
             [OpEnd 200; OpRound (chunk (go "A: b\n\nbody")); OpEnd 404]
             start (fresh []) 500 (chunk "x") []). reflexivity.
  - apply (nothing_after_termination []
             (mkWorker (make 512) false 200 "" false) (fresh []) 500
             (mkRound (go "\n\nbody") false true) [chunk "more"]).
    + reflexivity.
    + reflexivity.
    + vm_compute. discriminate.
Defined.

(** C4 (as stated) fails: [SendBytes] writes after [End]. *)
Lemma send_after_end_counterexample :
  snd (ops [OpEnd 500; OpSendBytes "late"] start (fresh []))
  = mkContext [] true [WriteHeader 500; Write "late"].
Proof. vm_compute. reflexivity. Qed.

Lemma single_body_byte_dropped_witness :
  exists w ctx,
    rounds [chunk (go "A: b\n\nX")] start (fresh []) = (Done w, ctx)
    /\ committed (res ctx) = Some 200
    /\ body (res ctx) = [].
Proof.
  destruct (single_body_byte_dropped (go "A: b\n\nX") 4 6 []) as (r & ctx & Hr & Hb & Hc).
  - reflexivity.
  - reflexivity.
  - vm_compute. repeat constructor; discriminate.
  - destruct (Hc eq_refl) as [[w ->] Hst].
    exists w, ctx. split; [exact Hr|]. split; [exact Hst | exact Hb].
Defined.

Example one_body_byte :
  snd (stdout_worker [chunk (go "A: b\n\nX")])
  = mkContext [] false [HeaderSet "A" "b"; WriteHeader 200].
Proof. vm_compute. reflexivity. Qed.

Example two_body_bytes :
  snd (stdout_worker [chunk (go "A: b\n\nXY")])
  = mkContext [] false [HeaderSet "A" "b"; WriteHeader 200; Write "XY"].
Proof. vm_compute. reflexivity. Qed.

Lemma empty_header_line_panics_witness :
  fst (rounds [chunk (go "\n\nbody")] start (fresh [])) = Panicked.
Proof.
  apply (empty_header_line_panics (go "\n\nbody") 0 2 (fresh [])).
  - reflexivity.
  - left. reflexivity.
Defined.

Example blank_line_first_crlf :
  stdout_worker [chunk (go "\r\n\r\n<html></html>")] = (Panicked, fresh []).
Proof. vm_compute. reflexivity. Qed.

Lemma split_separator_not_detected_witness :
  eoh_FindIndex (go "Status: 404\r\n\r" +:+ go "\n<html>not found</html>")
  = Some (11%nat, 15%nat)
  /\ exists w,
       rounds [chunk (go "Status: 404\r\n\r"); chunk (go "\n<html>not found</html>");
               mkRound "" true false]
         start (fresh []) = (Done w, fresh [])
       /\ isheader w = true
       /\ hdr w = go "Status: 404\r\n\r\n<html>not found</html>".
Proof.
  split; [reflexivity|].
  apply (split_separator_not_detected
           [chunk (go "Status: 404\r\n\r"); chunk (go "\n<html>not found</html>");
            mkRound "" true false]
           (fresh [])); reflexivity.
Defined.

(** C2 (as stated) fails: the separator of the header block is split
    across the two reads, and the second read holds a later blank line; the
    header state ends there and status, header and body are forwarded. *)
Lemma later_separator_counterexample :
  eoh_FindIndex (go "A: b\r\n\r" +:+ go "\nbody\n\nmore") = Some (4%nat, 8%nat)
  /\ String.length (go "A: b\r\n\r") = 7%nat
  /\ stdout_worker [chunk (go "A: b\r\n\r"); chunk (go "\nbody\n\nmore")]
     = (Done (mkWorker (read_into (make 512) (go "\nbody\n\nmore")) false 200
                (go "A: b\r\n\r\nbody") false),
        mkContext [] false [HeaderSet "A" "b"; WriteHeader 200; Write "more"]).
Proof. repeat split; vm_compute; reflexivity. Qed.

(** The search runs over the whole buffer, [eoh.FindIndex(buf)]: bytes an
    earlier, longer read left behind can complete a separator that the
    output does not contain. *)
Example stale_bytes_complete_a_separator :
  eoh_FindIndex (go "abc\nd" +:+ go "ef\n") = None
  /\ snd (stdout_worker [chunk (go "abc\nd"); chunk (go "ef\n")])
     = mkContext [] false [WriteHeader 200].
Proof. split; vm_compute; reflexivity. Qed.


(** Example 2 of the specification: the value [404 Not Found] is not an
    integer for [strconv.Atoi]; the status stays 200. *)
Example status_with_reason_phrase :
  snd (stdout_worker [chunk (go "Status: 404 Not Found\r\nX-Foo: bar\r\n\r\nbody")])
  = mkContext [] false [HeaderSet "X-Foo" "bar"; WriteHeader 200; Write "body"].
Proof. vm_compute. reflexivity. Qed.

(** * Further properties of the package *)

(** ** Request data: [PutData], [GetData], [DataNames] *)

Section RequestData.

Implicit Types (d : Data.t) (k : string) (v : Any) (kvs : list (string * Any)).

Lemma GetData_PutData_eq d k v : Data.GetData k (Data.PutData k v d) = v.
Proof. unfold Data.GetData, Data.PutData. simpl. now rewrite String.eqb_refl. Qed.

Lemma GetData_PutData_ne d k k' v :
  k <> k' -> Data.GetData k' (Data.PutData k v d) = Data.GetData k' d.
Proof.
  intros Hne. unfold Data.GetData, Data.PutData. simpl.
  destruct (String.eqb_spec k k'); [contradiction | reflexivity].
Qed.

Lemma put_all_app kvs1 kvs2 d :
  Data.put_all (kvs1 ++ kvs2) d = Data.put_all kvs2 (Data.put_all kvs1 d).
Proof. unfold Data.put_all. apply fold_left_app. Qed.

Lemma GetData_put_all_absent kvs : forall d k,
  k ∉ kvs.*1 -> Data.GetData k (Data.put_all kvs d) = Data.GetData k d.
Proof.
  induction kvs as [|[k0 v0] kvs IH]; intros d k Hk; [reflexivity|].
  rewrite fmap_cons in Hk. apply not_elem_of_cons in Hk as [Hne Hk]. simpl in Hne.
  change (Data.put_all ((k0, v0) :: kvs) d)
    with (Data.put_all kvs (Data.PutData k0 v0 d)).
  rewrite (IH _ _ Hk). apply GetData_PutData_ne. congruence.
Qed.

Lemma GetData_last_put kvs1 kvs2 d k v :
  k ∉ kvs2.*1 -> Data.GetData k (Data.put_all (kvs1 ++ (k, v) :: kvs2) d) = v.
Proof.
  intros Hk. rewrite put_all_app.
  change (Data.put_all ((k, v) :: kvs2) (Data.put_all kvs1 d))
    with (Data.put_all kvs2 (Data.PutData k v (Data.put_all kvs1 d))).
  rewrite (GetData_put_all_absent _ _ _ Hk). apply GetData_PutData_eq.
Qed.

(** The value read under a key is the one of the last [PutData] for that
    key; keys never put read as before. *)
Theorem last_PutData_wins kvs1 kvs2 d k v :
  k ∉ kvs2.*1 ->
  Data.GetData k (Data.put_all (kvs1 ++ (k, v) :: kvs2) d) = v
  /\ (forall k', k' ∉ (kvs1 ++ (k, v) :: kvs2).*1 ->
        Data.GetData k' (Data.put_all (kvs1 ++ (k, v) :: kvs2) d) = Data.GetData k' d).
Proof.
  intros Hk. split.
  - now apply GetData_last_put.
  - intros k' Hk'. now apply GetData_put_all_absent.
Qed.

Lemma exists_key_elem k (keys : list string) :
  Data.exists_key k keys = true <-> k ∈ keys.
Proof.
  induction keys as [|x keys IH]; simpl.
  - rewrite elem_of_nil. split; [discriminate | tauto].
  - rewrite elem_of_cons. destruct (String.eqb_spec x k) as [->|Hne].
    + tauto.
    + rewrite IH. split; [tauto|]. intros [E|H]; [congruence | exact H].
Qed.

Lemma datakeys_PutData d k v x :
  x ∈ Data.datakeys (Data.PutData k v d) <-> x = k \/ x ∈ Data.datakeys d.
Proof.
  unfold Data.PutData. simpl.
  destruct (Data.exists_key k (Data.datakeys d)) eqn:E.
  - apply exists_key_elem in E. split; [tauto|]. intros [->|H]; assumption.
  - rewrite elem_of_app, list_elem_of_singleton. tauto.
Qed.

Lemma NoDup_PutData d k v :
  NoDup (Data.datakeys d) -> NoDup (Data.datakeys (Data.PutData k v d)).
Proof.
  intros Hd. unfold Data.PutData. simpl.
  destruct (Data.exists_key k (Data.datakeys d)) eqn:E; [exact Hd|].
  apply NoDup_app. split; [exact Hd|]. split.
  - intros x Hx ->%list_elem_of_singleton.
    apply exists_key_elem in Hx. congruence.
  - apply NoDup_singleton.
Qed.

Lemma names_cover_PutData d k v : names_cover d -> names_cover (Data.PutData k v d).
Proof.
  intros [Hnd Hcov]. split; [now apply NoDup_PutData|].
  intros k' Hk'. apply datakeys_PutData.
  destruct (string_dec k' k) as [->|Hne]; [now left | right].
  apply Hcov. rewrite GetData_PutData_ne in Hk' by congruence. exact Hk'.
Qed.

Lemma names_cover_put_all kvs : forall d, names_cover d -> names_cover (Data.put_all kvs d).
Proof.
  induction kvs as [|[k v] kvs IH]; intros d Hd; [exact Hd|].
  apply (IH (Data.PutData k v d)). now apply names_cover_PutData.
Qed.

Lemma datakeys_put_all kvs : forall d x,
  x ∈ Data.datakeys (Data.put_all kvs d) <-> x ∈ kvs.*1 \/ x ∈ Data.datakeys d.
Proof.
  induction kvs as [|[k v] kvs IH]; intros d x.
  - simpl. rewrite elem_of_nil. tauto.
  - change (Data.put_all ((k, v) :: kvs) d)
      with (Data.put_all kvs (Data.PutData k v d)).
    rewrite IH, datakeys_PutData, fmap_cons, elem_of_cons. simpl. tauto.
Qed.

(** [DataNames] after any sequence of [PutData] on a new context: every key
    put is listed, exactly once, nothing else is, and a key that reads as
    something other than [nil] is listed. *)
Theorem DataNames_of_puts kvs :
  NoDup (Data.DataNames (Data.put_all kvs Data.empty))
  /\ (forall k, k ∈ Data.DataNames (Data.put_all kvs Data.empty) <-> k ∈ kvs.*1)
  /\ (forall k, Data.GetData k (Data.put_all kvs Data.empty) <> ANil ->
                k ∈ Data.DataNames (Data.put_all kvs Data.empty)).
Proof.
  assert (names_cover Data.empty) as H0.
  { split; [apply NoDup_nil_2 | intros k Hk; now destruct Hk]. }
  destruct (names_cover_put_all kvs _ H0) as [Hnd Hcov].
  split; [exact Hnd|]. split; [|exact Hcov].
  intros k. unfold Data.DataNames. rewrite datakeys_put_all.
  simpl. rewrite elem_of_nil. tauto.
Qed.

(** [BaseEntry.Exec] hands the entry's data to the context: whatever order
    the map is visited in, every key reads as its value in the map, a key
    the map lacks reads as [nil], and [DataNames] lists the map's keys. *)
Theorem Exec_copies_entry_data (m : gmap string Any) kvs k :
  kvs ≡ₚ map_to_list m ->
  Data.GetData k (Data.put_all kvs Data.empty) = default ANil (m !! k)
  /\ Data.DataNames (Data.put_all kvs Data.empty) ≡ₚ (map_to_list m).*1.
Proof.
  intros Hperm.
  assert (NoDup kvs.*1) as Hnd.
  { rewrite Hperm. apply NoDup_fst_map_to_list. }
  split.
  - destruct (m !! k) as [v|] eqn:E; simpl.
    + assert ((k, v) ∈ kvs) as Hin.
      { rewrite Hperm. now apply elem_of_map_to_list. }
      apply list_elem_of_split in Hin as (l1 & l2 & ->).
      rewrite fmap_app, fmap_cons in Hnd.
      apply NoDup_app in Hnd as (_ & _ & Hnd). apply NoDup_cons in Hnd as [Hk _].
      now apply GetData_last_put.
    + rewrite GetData_put_all_absent; [reflexivity|].
      intros Hin. apply list_elem_of_fmap in Hin as ([k' v] & -> & Hin).
      rewrite Hperm in Hin. apply elem_of_map_to_list in Hin. simpl in E. congruence.
  - rewrite <- Hperm. apply NoDup_Permutation; [ | exact Hnd | ].
    + apply (names_cover_put_all kvs Data.empty).
      split; [apply NoDup_nil_2 | intros k' Hk'; now destruct Hk'].
    + intros x. unfold Data.DataNames. rewrite datakeys_put_all.
      simpl. rewrite elem_of_nil. tauto.
Qed.

End RequestData.

Lemma last_PutData_wins_witness :
  Data.GetData "cgi:options"
    (Data.put_all ([("cgi:options", AOther 1)] ++ ("cgi:options", AStrings ["-v"])
                   :: [("user", AOther 2)]) Data.empty)
  = AStrings ["-v"].
Proof.
  apply (last_PutData_wins [("cgi:options", AOther 1)] [("user", AOther 2)]
           Data.empty "cgi:options" (AStrings ["-v"])).
  intros H. apply list_elem_of_singleton in H. discriminate.
Defined.

Lemma Exec_copies_entry_data_witness :
  Data.GetData "user" (Data.put_all (map_to_list {["user" := AOther 2]}) Data.empty)
  = default ANil (({["user" := AOther 2]} : gmap string Any) !! "user")
  /\ Data.DataNames (Data.put_all (map_to_list {["user" := AOther 2]}) Data.empty)
     ≡ₚ (map_to_list ({["user" := AOther 2]} : gmap string Any)).*1.
Proof.
  apply (Exec_copies_entry_data {["user" := AOther 2]}
           (map_to_list {["user" := AOther 2]}) "user"). reflexivity.
Defined.

(** ** Form values *)

Section FormValues.

Lemma digits_step (c : ascii) (acc : Z) (r : string) :
  is_digit c = true -> digits acc (String c r) = digits (acc * 10 + digit_val c) r.
Proof. intros Hc. simpl. now rewrite Hc. Qed.

Lemma digits_of_uint_acc (d : Decimal.uint) : forall p : positive,
  digits (Z.pos p) (NilEmpty.string_of_uint d) = Some (Z.pos (Pos.of_uint_acc d p)).
Proof.
  induction d as [|d IH|d IH|d IH|d IH|d IH|d IH|d IH|d IH|d IH|d IH]; intros p;
    [reflexivity|..];
    cbn [NilEmpty.string_of_uint Pos.of_uint_acc];
    rewrite digits_step by reflexivity; rewrite <- IH; f_equal;
    match goal with |- context [digit_val ?c] =>
      let v := eval vm_compute in (digit_val c) in change (digit_val c) with v
    end; lia.
Qed.

Lemma digits_of_uint (d : Decimal.uint) :
  digits 0 (NilEmpty.string_of_uint d) = Some (Z.of_N (Pos.of_uint d)).
Proof.
  induction d as [|d IH|d IH|d IH|d IH|d IH|d IH|d IH|d IH|d IH|d IH];
    [reflexivity | exact IH |..];
    cbn [NilEmpty.string_of_uint Pos.of_uint Z.of_N];
    rewrite digits_step by reflexivity; rewrite <- digits_of_uint_acc; reflexivity.
Qed.

Lemma string_of_uint_head (d : Decimal.uint) :
  d <> Decimal.Nil ->
  exists c r, NilEmpty.string_of_uint d = String c r /\ is_digit c = true.
Proof. destruct d; [congruence|..]; intros _; eexists _, _; split; reflexivity. Qed.

Lemma digit_no_sign (c : ascii) :
  is_digit c = true -> Ascii.eqb c "-" = false /\ Ascii.eqb c "+" = false.
Proof.
  destruct c as [[] [] [] [] [] [] [] []]; intros H; try discriminate H; split; reflexivity.
Qed.

Lemma unsigned_to_uint (p : positive) :
  unsigned (NilEmpty.string_of_uint (Pos.to_uint p)) = Some (Z.pos p).
Proof.
  destruct (string_of_uint_head _ (DecimalPos.Unsigned.to_uint_nonnil p))
    as (c & r & E & _).
  unfold unsigned. rewrite E, <- E.
  now rewrite digits_of_uint, DecimalPos.Unsigned.of_to.
Qed.

Lemma itoa_pos (p : positive) : itoa (Z.pos p) = NilEmpty.string_of_uint (Pos.to_uint p).
Proof.
  unfold itoa. cbn [Z.to_int NilZero.string_of_int]. unfold NilZero.string_of_uint.
  assert (H := DecimalPos.Unsigned.to_uint_nonnil p).
  destruct (Pos.to_uint p); [congruence|..]; reflexivity.
Qed.

Lemma itoa_neg (p : positive) :
  itoa (Z.neg p) = String "-" (NilEmpty.string_of_uint (Pos.to_uint p)).
Proof.
  unfold itoa. cbn [Z.to_int NilZero.string_of_int]. unfold NilZero.string_of_uint.
  assert (H := DecimalPos.Unsigned.to_uint_nonnil p).
  destruct (Pos.to_uint p); [congruence|..]; reflexivity.
Qed.

Lemma signed_decimal_itoa (x : Z) : Form.signed_decimal (itoa x) = Some x.
Proof.
  unfold Form.signed_decimal. destruct x as [|p|p].
  - reflexivity.
  - rewrite itoa_pos.
    destruct (string_of_uint_head _ (DecimalPos.Unsigned.to_uint_nonnil p))
      as (c & r & E & Hc).
    destruct (digit_no_sign c Hc) as [Hm Hp].
    now rewrite E, Hm, Hp, <- E, unsigned_to_uint.
  - rewrite itoa_neg. now rewrite Ascii.eqb_refl, unsigned_to_uint.
Qed.

(** [ParseInt] reads back what [%d] prints, within the range of its bit
    size. *)
Lemma ParseInt10_itoa (bits x : Z) :
  - 2 ^ (bits - 1) <= x <= 2 ^ (bits - 1) - 1 ->
  Form.ParseInt10 bits (itoa x) = Some x.
Proof.
  intros Hx.
  assert (((- 2 ^ (bits - 1) <=? x) && (x <=? 2 ^ (bits - 1) - 1)) = true) as Hr.
  { apply andb_true_iff. split; apply Z.leb_le; lia. }
  unfold Form.ParseInt10. now rewrite signed_decimal_itoa, Hr.
Qed.

(** [FormValueInt] reads the decimal text of every 32-bit integer back as
    that integer, whatever the failsafe; and whatever the text, its result is
    the failsafe or a 32-bit integer, so that [int(i)] never truncates. *)
Theorem FormValueInt_reads_int32 (x failsafe : Z) (text : string) :
  - 2 ^ 31 <= x <= 2 ^ 31 - 1 ->
  Form.FormValueInt (itoa x) failsafe = x
  /\ (Form.FormValueInt text failsafe = failsafe
      \/ - 2 ^ 31 <= Form.FormValueInt text failsafe <= 2 ^ 31 - 1).
Proof.
  intros Hx. split.
  - unfold Form.FormValueInt. now rewrite (ParseInt10_itoa 32 x Hx).
  - unfold Form.FormValueInt, Form.ParseInt10.
    destruct (Form.signed_decimal text) as [y|]; [|now left].
    destruct ((- 2 ^ (32 - 1) <=? y) && (y <=? 2 ^ (32 - 1) - 1)) eqn:E; [|now left].
    right. apply andb_true_iff in E as [E1 E2].
    apply Z.leb_le in E1. apply Z.leb_le in E2. simpl in *. lia.
Qed.

Lemma lower_byte_idem (c : ascii) : lower_byte (lower_byte c) = lower_byte c.
Proof. destruct c as [[] [] [] [] [] [] [] []]; reflexivity. Qed.

Lemma ToLower_idem (s : string) : ToLower (ToLower s) = ToLower s.
Proof.
  unfold ToLower. induction s as [|c s IH]; [reflexivity|].
  cbn [map_bytes]. now rewrite lower_byte_idem, IH.
Qed.

Lemma ToLower_never (s w : string) : ToLower w <> w -> String.eqb (ToLower s) w = false.
Proof.
  intros Hw. apply String.eqb_neq. intros E. apply Hw.
  rewrite <- E. apply ToLower_idem.
Qed.

(** [FormValueBool] depends on the text only through its lower-case form:
    one of five words gives [true], one of five others [false], and every
    other text, the empty one included, gives the failsafe; the call of
    [strconv.ParseBool] in the last case never succeeds. *)
Theorem FormValueBool_words (text : string) (failsafe : bool) :
  Form.FormValueBool text failsafe =
    if Form.one_of ["yes"; "y"; "true"; "t"; "1"] (ToLower text) then true
    else if Form.one_of ["no"; "n"; "false"; "f"; "0"] (ToLower text) then false
    else failsafe.
Proof.
  unfold Form.FormValueBool.
  destruct (Form.one_of ["yes"; "y"; "true"; "t"; "1"] (ToLower text)) eqn:Ht;
    [reflexivity|].
  destruct (Form.one_of ["no"; "n"; "false"; "f"; "0"] (ToLower text)) eqn:Hf;
    [reflexivity|].
  destruct (String.eqb (ToLower text) ""); [reflexivity|].
  unfold Form.one_of in Ht, Hf. cbn [List.existsb] in Ht, Hf.
  repeat (apply orb_false_iff in Ht as [? Ht]).
  repeat (apply orb_false_iff in Hf as [? Hf]).
  unfold Form.ParseBool, Form.one_of. cbn [List.existsb].
  repeat match goal with H : String.eqb _ _ = false |- _ => rewrite H; clear H end.
  rewrite !ToLower_never by discriminate. reflexivity.
Qed.

End FormValues.

Lemma FormValueInt_reads_int32_witness :
  Form.FormValueInt "-2147483648" 7 = - 2147483648
  /\ (Form.FormValueInt "12x" 7 = 7 \/ - 2 ^ 31 <= Form.FormValueInt "12x" 7 <= 2 ^ 31 - 1).
Proof.
  apply (FormValueInt_reads_int32 (- 2147483648) 7 "12x"). lia.
Defined.

(** ** The stdin and stderr goroutines, and the arguments *)

Section OtherPipes.

Lemma concat_all_snoc (ws : list string) (x : string) :
  Pipes.concat_all (ws ++ [x]) = Pipes.concat_all ws +:+ x.
Proof.
  induction ws as [|w ws IH]; simpl.
  - apply append_empty.
  - rewrite IH. symmetry. apply append_assoc.
Qed.

Lemma slice_of_read (b c : string) : slice (read_into b c) 0 (String.length c) = c.
Proof. rewrite slice_read by lia. apply slice_all. Qed.

Lemma feed_spec (rs : list Pipes.Read) : forall (b : string) (ws : list string),
  Pipes.concat_all (snd (fst (Pipes.feed rs b ws)))
  = Pipes.concat_all ws +:+ Pipes.concat_got (Pipes.consumed rs)
  /\ snd (Pipes.feed rs b ws) = List.existsb Pipes.failed rs.
Proof.
  induction rs as [|r rs IH]; intros b ws.
  - simpl. split; [now rewrite append_empty | reflexivity].
  - cbn [Pipes.feed Pipes.consumed List.existsb]. rewrite slice_of_read.
    destruct (Pipes.failed r).
    + cbn [orb Pipes.concat_got].
      destruct (0 <? Z.of_nat (String.length (Pipes.got r))) eqn:E; cbn [fst snd].
      * split; [|reflexivity]. rewrite concat_all_snoc. now rewrite append_empty.
      * split; [|reflexivity]. apply Z.ltb_ge in E.
        destruct (Pipes.got r) as [|a g]; [|simpl in E; lia].
        change ("" +:+ "") with "". now rewrite append_empty.
    + cbn [orb Pipes.concat_got]. destruct (IH (read_into b (Pipes.got r))
                                               (ws ++ [Pipes.got r])) as [H1 H2].
      split; [|exact H2]. rewrite H1, concat_all_snoc. apply append_assoc.
Qed.

(** The stdin goroutine passes the request body on unchanged: the chunks
    written, put together, are the bytes read, in order, up to and including
    what came with the first failing read; the pipe is closed exactly when a
    read has failed.  The stderr goroutine logs the subprocess's diagnostics
    in the same way. *)
Theorem body_and_diagnostics_verbatim (rs : list Pipes.Read) :
  Pipes.concat_all (fst (Pipes.stdin_worker rs)) = Pipes.concat_got (Pipes.consumed rs)
  /\ snd (Pipes.stdin_worker rs) = List.existsb Pipes.failed rs
  /\ Pipes.concat_all (fst (Pipes.stderr_worker rs)) = Pipes.concat_got (Pipes.consumed rs)
  /\ snd (Pipes.stderr_worker rs) = List.existsb Pipes.failed rs.
Proof.
  unfold Pipes.stdin_worker, Pipes.stderr_worker.
  destruct (feed_spec rs (make 512) []) as [H1 H2].
  destruct (Pipes.feed rs (make 512) []) as [[b ws] c]. cbn [fst snd] in *.
  repeat split; assumption.
Qed.

(** The arguments of the subprocess: the fixed options, then the strings
    last put under ["cgi:options"], then the route parameters; a value of
    another type under that key adds nothing. *)
Theorem dynamic_options_between (self : CgiProcessor)
    (kvs1 kvs2 : list (string * Any)) (v : Any) (ps : list string) :
  "cgi:options" ∉ kvs2.*1 ->
  Pipes.make_args self
    (Data.put_all (kvs1 ++ ("cgi:options", v) :: kvs2) Data.empty) ps
  = opts self ++ match v with AStrings ss => ss | _ => [] end ++ ps.
Proof.
  intros Hk. unfold Pipes.make_args.
  now rewrite (GetData_last_put kvs1 kvs2 Data.empty "cgi:options" v Hk).
Qed.

End OtherPipes.

Example empty_body_closes_stdin : Pipes.stdin_worker [Pipes.mkRead "" true] = ([], true).
Proof. reflexivity. Qed.

Example arguments_example_1 :
  Pipes.make_args plain_cgi Data.empty ["42"] = ["--mode"; "x"; "42"].
Proof. reflexivity. Qed.

Lemma dynamic_options_between_witness :
  Pipes.make_args plain_cgi
    (Data.put_all ([] ++ ("cgi:options", AStrings ["-v"]) :: [("user", AOther 2)])
       Data.empty) ["42"]
  = ["--mode"; "x"; "-v"; "42"].
Proof.
  apply (dynamic_options_between plain_cgi [] [("user", AOther 2)] (AStrings ["-v"]) ["42"]).
  intros H. apply list_elem_of_singleton in H. discriminate.
Defined.

(** ** More on the stdout goroutine *)

Section Streaming.

(** The read that brings the separator, in the header state with a buffer
    that holds nothing stale: all header bytes gathered so far are parsed
    together with those before the separator. *)
Lemma header_found (c : string) (i0 i1 k : nat) (re we : bool)
    (w : Worker) (ctx : NxContext) :
  isheader w = true ->
  clean_from k (buf w) -> (k <= String.length c)%nat ->
  eoh_FindIndex c = Some (i0, i1) ->
  Forall (fun l => l <> "") (Split LF (hdr w +:+ slice c 0 i0)) ->
  stopped ctx = false ->
  valid_code (List.fold_left next_status
                (Split LF (hdr w +:+ slice c 0 i0)) (status w)) = true ->
  exists w',
    round (mkRound c re we) w ctx
    = (Done w',
       add_calls (List.flat_map line_calls (Split LF (hdr w +:+ slice c 0 i0))
                  ++ WriteHeader (List.fold_left next_status
                                    (Split LF (hdr w +:+ slice c 0 i0)) (status w))
                     :: List.map Write (first_body c i1)) ctx)
    /\ isheader w' = false
    /\ stop w' = (re || (Z.of_nat i1 <? Z.of_nat (String.length c) - 1) && we).
Proof.
  intros Hh Hclean Hk Hidx Hlines Hrun Hvalid.
  assert (Hb := eoh_from_bound _ _ _ _ Hidx). simpl in Hb.
  unfold round. cbn [data read_err write_err]. rewrite Hh.
  assert ((0 <? Z.of_nat (String.length c)) = true) as -> by (apply Z.ltb_lt; lia).
  rewrite (scan_clean k) by assumption. rewrite Hidx.
  rewrite slice_read by lia.
  unfold bind. rewrite (header_lines_nonempty _ _ _ Hlines).
  unfold NxCtx.IsStopped. cbn [add_calls stopped]. rewrite Hrun. cbn [negb].
  unfold write_header. rewrite Hvalid. cbn [res params stopped].
  assert (forall o : option Z, match o with Some _ => Done tt | None => Done tt end
                               = Done tt) as -> by (now intros []).
  unfold first_body.
  destruct (Z.of_nat i1 <? Z.of_nat (String.length c) - 1) eqn:E.
  - rewrite slice_read by lia.
    eexists. split.
    { unfold call, ret, add_calls. cbn [params stopped res List.map].
      rewrite <- !app_assoc. reflexivity. }
    split; reflexivity.
  - eexists. split.
    { unfold call, ret, add_calls. cbn [params stopped res List.map].
      rewrite <- !app_assoc. reflexivity. }
    split; [reflexivity|]. cbn [stop]. now rewrite orb_false_r.
Qed.

Lemma header_after_reads (c : string) (i0 i1 : nat) (rs : list Round) :
  forall (w : Worker) (ctx : NxContext) (k : nat),
  isheader w = true ->
  clean_from k (buf w) ->
  growing k (rs ++ [chunk c]) = true ->
  forallb no_separator rs = true ->
  forallb (fun r => negb (read_err r)) rs = true ->
  eoh_FindIndex c = Some (i0, i1) ->
  Forall (fun l => l <> "") (Split LF (hdr w +:+ concat_data rs +:+ slice c 0 i0)) ->
  stopped ctx = false ->
  valid_code (List.fold_left next_status
                (Split LF (hdr w +:+ concat_data rs +:+ slice c 0 i0)) (status w)) = true ->
  exists w',
    rounds (rs ++ [chunk c]) w ctx
    = (Done w',
       add_calls
         (List.flat_map line_calls (Split LF (hdr w +:+ concat_data rs +:+ slice c 0 i0))
          ++ WriteHeader (List.fold_left next_status
                            (Split LF (hdr w +:+ concat_data rs +:+ slice c 0 i0))
                            (status w))
             :: List.map Write (first_body c i1)) ctx)
    /\ isheader w' = false.
Proof.
  induction rs as [|r rs IH];
    intros w ctx k Hh Hclean Hgrow Hsep Herr Hidx Hlines Hrun Hvalid.
  - cbn [app concat_data] in *. change ("" +:+ slice c 0 i0) with (slice c 0 i0) in *.
    assert (Hb := eoh_from_bound _ _ _ _ Hidx). simpl in Hb.
    assert ((k <= String.length c)%nat) as Hk.
    { cbn [growing chunk data] in Hgrow. destruct c as [|a c]; [simpl in Hb; lia|].
      apply andb_true_iff in Hgrow as [Hk _]. now apply Nat.leb_le in Hk. }
    destruct (header_found c i0 i1 k false false w ctx Hh Hclean Hk Hidx Hlines Hrun
                Hvalid) as (w' & Hw' & Hh' & _).
    exists w'. split; [|exact Hh'].
    cbn [rounds]. unfold bind, chunk. rewrite Hw'. destruct (stop w'); reflexivity.
  - cbn [forallb] in Hsep, Herr.
    apply andb_true_iff in Hsep as [Hr Hsep].
    apply andb_true_iff in Herr as [He Herr]. apply negb_true_iff in He.
    cbn [app growing] in Hgrow.
    assert (exists k', (data r = "" \/ (k <= String.length (data r))%nat)
                       /\ clean_from k' (read_into (buf w) (data r))
                       /\ growing k' (rs ++ [chunk c]) = true)
      as (k' & Hk & Hclean' & Hgrow').
    { destruct (data r) as [|a d] eqn:E.
      - exists k. split; [now left|]. split; [exact Hclean | exact Hgrow].
      - apply andb_true_iff in Hgrow as [Hk Hgrow]. apply Nat.leb_le in Hk.
        exists (String.length (String a d)). split; [now right|].
        split; [now apply (clean_read k) | exact Hgrow]. }
    cbn [app rounds]. unfold bind.
    rewrite (round_accumulates r w ctx k Hh Hclean Hk Hr). rewrite He. cbn [stop].
    cbn [concat_data] in Hlines, Hvalid |- *.
    rewrite (append_assoc (data r) (concat_data rs) (slice c 0 i0)) in Hlines, Hvalid |- *.
    rewrite <- (append_assoc (hdr w) (data r)) in Hlines, Hvalid |- *.
    apply (IH (mkWorker (read_into (buf w) (data r)) true (status w)
                 (hdr w +:+ data r) false) ctx k'); try assumption. reflexivity.
Qed.


(** One round in the body state, the response not stopped. *)
Lemma round_streams (r : Round) (w : Worker) (ctx : NxContext) :
  isheader w = false -> stopped ctx = false ->
  round r w ctx
  = (Done (mkWorker (read_into (buf w) (data r)) false (status w) (hdr w)
             (read_err r
              || (0 <? Z.of_nat (String.length (data r))) && write_err r)),
     add_calls (List.map Write (chunks [r])) ctx).
Proof.
  intros Hh Hrun. unfold round, chunks. rewrite Hh. cbn [List.map List.filter].
  destruct (0 <? Z.of_nat (String.length (data r))) eqn:E.
  - unfold bind, NxCtx.IsStopped. rewrite Hrun. cbn [negb].
    unfold call, ret. rewrite slice_of_read. reflexivity.
  - unfold ret. cbn [andb List.map]. now rewrite add_calls_nil, orb_false_r.
Qed.

Lemma chunks_cons (r : Round) (rs : list Round) : chunks (r :: rs) = chunks [r] ++ chunks rs.
Proof.
  unfold chunks. cbn [List.map List.filter].
  destruct (0 <? Z.of_nat (String.length (data r))); reflexivity.
Qed.

Lemma rounds_stream (rs : list Round) : forall (w : Worker) (ctx : NxContext),
  isheader w = false -> stopped ctx = false ->
  exists w',
    rounds rs w ctx = (Done w', add_calls (List.map Write (chunks (streamed rs))) ctx)
    /\ isheader w' = false.
Proof.
  induction rs as [|r rs IH]; intros w ctx Hh Hrun.
  - exists w. split; [|exact Hh]. simpl. unfold ret. now rewrite add_calls_nil.
  - cbn [rounds streamed]. unfold bind. rewrite (round_streams r w ctx Hh Hrun).
    cbn [stop].
    destruct (read_err r || (0 <? Z.of_nat (String.length (data r))) && write_err r).
    + eexists. split; reflexivity.
    + destruct (IH (mkWorker (read_into (buf w) (data r)) false (status w) (hdr w) false)
                  (add_calls (List.map Write (chunks [r])) ctx) eq_refl Hrun)
        as (w' & Hw' & Hh').
      exists w'. split; [|exact Hh']. rewrite Hw', add_calls_app, <- map_app.
      now rewrite <- chunks_cons.
Qed.

(** Once the headers are out and while the response is not stopped, every
    chunk read is written to the client as it is and in order, up to and
    including the chunk of the first round whose read or write fails; nothing
    else is called on the response. *)
Theorem body_streamed_verbatim (rs : list Round) (w : Worker) (ctx : NxContext) :
  isheader w = false -> stopped ctx = false ->
  exists w',
    rounds rs w ctx = (Done w', add_calls (List.map Write (chunks (streamed rs))) ctx)
    /\ isheader w' = false.
Proof. apply rounds_stream. Qed.

Lemma line_calls_headers (ls : list string) :
  List.flat_map line_calls ls
  = List.map (fun kv => HeaderSet (fst kv) (snd kv)) (omap plain_header ls).
Proof.
  induction ls as [|l ls IHl]; [reflexivity|].
  cbn [List.flat_map]. rewrite omap_cons'. unfold line_calls at 1.
  destruct (plain_header l) as [[k v]|]; cbn [List.map app fst snd]; now rewrite IHl.
Qed.


End Streaming.


Lemma body_streamed_verbatim_witness :
  exists w',
    rounds [chunk "ab"; chunk ""; mkRound "cd" false true; chunk "ef"]
      (mkWorker (make 512) false 200 "" false) (fresh [])
    = (Done w', add_calls [Write "ab"; Write "cd"] (fresh []))
    /\ isheader w' = false.
Proof.
  apply (body_streamed_verbatim
           [chunk "ab"; chunk ""; mkRound "cd" false true; chunk "ef"]
           (mkWorker (make 512) false 200 "" false) (fresh [])); reflexivity.
Defined.


(** ** What the two patterns match *)

Section Patterns.

Lemma eoh_here_sound (s : string) (l : nat) :
  eoh_here s = Some l ->
  exists sep b, s = sep +:+ b /\ String.length sep = l /\ In sep separators.
Proof.
  unfold eoh_here, optCR, expLF, separators.
  destruct s as [|c1 [|c2 [|c3 [|c4 s]]]]; simpl;
    repeat match goal with
      | |- context [Ascii.eqb ?a ?b] => destruct (Ascii.eqb_spec a b); subst
      end; simpl; intros H; try discriminate; injection H as <-;
    first
      [ exists (go "\r\n\r\n"); eexists; split; [reflexivity|]; split; [reflexivity|];
        simpl; tauto
      | exists (go "\r\n\n"); eexists; split; [reflexivity|]; split; [reflexivity|];
        simpl; tauto
      | exists (go "\n\r\n"); eexists; split; [reflexivity|]; split; [reflexivity|];
        simpl; tauto
      | exists (go "\n\n"); eexists; split; [reflexivity|]; split; [reflexivity|];
        simpl; tauto ].
Qed.

Lemma eoh_here_complete (sep b : string) :
  In sep separators -> exists l, eoh_here (sep +:+ b) = Some l.
Proof.
  unfold separators. intros [<-|[<-|[<-|[<-|[]]]]]; eexists; reflexivity.
Qed.

Lemma eoh_from_sound (s : string) : forall pos i0 i1,
  eoh_from pos s = Some (i0, i1) ->
  exists a sep b,
    s = a +:+ sep +:+ b /\ (pos + String.length a = i0)%nat
    /\ (i1 = i0 + String.length sep)%nat /\ In sep separators.
Proof.
  induction s as [|c s IH]; intros pos i0 i1; cbn [eoh_from].
  - change (eoh_here "") with (@None nat). discriminate.
  - destruct (eoh_here (String c s)) as [l|] eqn:E.
    + intros H. injection H as <- <-.
      apply eoh_here_sound in E as (sep & b & Hs & Hl & Hin).
      exists "", sep, b. rewrite Hl. simpl. repeat split; try assumption; lia.
    + intros H. apply IH in H as (a & sep & b & Hs & Ha & Hi & Hin).
      exists (String c a), sep, b. rewrite Hs. simpl.
      repeat split; try assumption; lia.
Qed.

Lemma eoh_from_complete (a : string) : forall pos sep b,
  In sep separators ->
  exists i0 i1, eoh_from pos (a +:+ sep +:+ b) = Some (i0, i1)
                /\ (i0 <= pos + String.length a)%nat.
Proof.
  induction a as [|c a IH]; intros pos sep b Hin.
  - destruct (eoh_here_complete sep b Hin) as [l Hl].
    change ("" +:+ sep +:+ b) with (sep +:+ b).
    destruct (sep +:+ b) as [|x y] eqn:E; cbn [eoh_from]; rewrite Hl;
      eexists _, _; (split; [reflexivity | simpl; lia]).
  - rewrite append_cons. cbn [eoh_from].
    destruct (eoh_here (String c (a +:+ sep +:+ b))) as [l|].
    + eexists _, _. split; [reflexivity | simpl; lia].
    + destruct (IH (S pos) sep b Hin) as (i0 & i1 & H & Hle).
      exists i0, i1. split; [exact H | simpl; lia].
Qed.

(** The separator search is that of the pattern: what it reports is one of
    the four texts CR LF CR LF, CR LF LF, LF CR LF, LF LF at the place it
    reports; and wherever the buffer holds one of them, the search reports a
    separator that starts there or earlier. *)
Theorem separator_search_exact (s : string) :
  (forall i0 i1, eoh_FindIndex s = Some (i0, i1) ->
     exists a sep b, s = a +:+ sep +:+ b /\ String.length a = i0
                     /\ (i1 = i0 + String.length sep)%nat /\ In sep separators)
  /\ (forall a sep b, s = a +:+ sep +:+ b -> In sep separators ->
        exists i0 i1, eoh_FindIndex s = Some (i0, i1) /\ (i0 <= String.length a)%nat).
Proof.
  split.
  - intros i0 i1 H. apply eoh_from_sound in H as (a & sep & b & Hs & Ha & Hi & Hin).
    exists a, sep, b. repeat split; assumption.
  - intros a sep b -> Hin. apply (eoh_from_complete a 0 sep b Hin).
Qed.

Lemma three_digits_value (s t : string) :
  three_digits s = Some t -> 0 <= ParseInt16 t <= 999.
Proof.
  unfold three_digits. destruct s as [|a [|b [|c s]]]; try discriminate.
  destruct (is_digit a) eqn:Ea; [|discriminate].
  destruct (is_digit b) eqn:Eb; [|discriminate].
  destruct (is_digit c) eqn:Ec; [|discriminate].
  intros H. injection H as <-.
  unfold ParseInt16, unsigned. cbn [digits]. rewrite Ea, Eb, Ec.
  assert (forall x, is_digit x = true -> 0 <= digit_val x <= 9) as Hd.
  { intros x Hx. unfold is_digit, digit_val in *.
    apply andb_true_iff in Hx as [H1 H2].
    apply Nat.leb_le in H1. apply Nat.leb_le in H2. lia. }
  apply Hd in Ea. apply Hd in Eb. apply Hd in Ec.
  destruct (((0 * 10 + digit_val a) * 10 + digit_val b) * 10 + digit_val c <=? 32767)
    eqn:E; [lia|]. apply Z.leb_gt in E. lia.
Qed.

Lemma last_ddd_value (s t : string) : last_ddd s = Some t -> 0 <= ParseInt16 t <= 999.
Proof.
  induction s as [|c s IH]; [discriminate|]. cbn [last_ddd].
  destruct (Ascii.eqb c LF); [discriminate|].
  destruct (last_ddd s) as [t'|].
  - intros H. injection H as <-. now apply IH.
  - apply three_digits_value.
Qed.

Lemma has_byte_append (c : ascii) (a b : string) :
  has_byte c (a +:+ b) = has_byte c a || has_byte c b.
Proof.
  induction a as [|x a IH]; [reflexivity|].
  rewrite append_cons. cbn [has_byte]. rewrite IH. now rewrite orb_assoc.
Qed.

Lemma digits_only (d : Decimal.uint) (c : ascii) :
  is_digit c = false -> has_byte c (NilEmpty.string_of_uint d) = false.
Proof.
  intros Hc.
  assert (forall x, is_digit x = true -> Ascii.eqb x c = false) as Hne.
  { intros x Hx. apply Ascii.eqb_neq. intros ->. congruence. }
  induction d; cbn [NilEmpty.string_of_uint has_byte]; [reflexivity|..];
    rewrite IHd, Hne by reflexivity; reflexivity.
Qed.

Lemma itoa_bytes (x : Z) (c : ascii) :
  is_digit c = false -> Ascii.eqb "-" c = false -> has_byte c (itoa x) = false.
Proof.
  intros Hc Hm. destruct x as [|p|p].
  - assert (Ascii.eqb "0" c = false) as H0.
    { apply Ascii.eqb_neq. intros <-. discriminate. }
    change (itoa 0) with "0". cbn [has_byte]. now rewrite H0.
  - rewrite itoa_pos. now apply digits_only.
  - rewrite itoa_neg. cbn [has_byte]. rewrite Hm. now apply digits_only.
Qed.

Lemma TrimLeft_none (s : string) : has_byte SP s = false -> TrimLeft SP s = s.
Proof. destruct s as [|c s]; [reflexivity|]. simpl. intros [-> _]%orb_false_iff. reflexivity. Qed.

Lemma TrimRight_none (s : string) : has_byte SP s = false -> TrimRight SP s = s.
Proof.
  induction s as [|c s IH]; [reflexivity|]. cbn [has_byte TrimRight].
  intros [Hc Hs]%orb_false_iff. rewrite (IH Hs), Hc. destruct s; reflexivity.
Qed.

Lemma chomp_none (s : string) : has_byte CR s = false -> chomp s = s.
Proof.
  unfold chomp. intros Hs.
  assert (forall c, last_byte s = Done c -> Ascii.eqb c CR = false) as H.
  { induction s as [|a s IH]; [discriminate|]. cbn [has_byte] in Hs.
    apply orb_false_iff in Hs as [Ha Hs]. intros c. cbn [last_byte].
    destruct s as [|b s]; [intros [= <-]; exact Ha | now apply IH]. }
  destruct (last_byte s) as [c|]; [|reflexivity]. now rewrite (H c eq_refl).
Qed.

(** A status line can only set a status from 0 to 999, while a [Status]
    header sets any integer that fits [int], negative ones and those that
    are no HTTP status included: the line [Status: <x>] makes the loop take
    [x] as the status and sets no header. *)
Theorem status_values (line : string) (x y st : Z) (ctx : NxContext) :
  - 2 ^ 63 <= x <= 2 ^ 63 - 1 ->
  header_line ("Status: " +:+ itoa x) st ctx = (Done x, ctx)
  /\ (status_line line = Some y -> 0 <= y <= 999).
Proof.
  intros Hx. split.
  - assert (has_byte CR ("Status: " +:+ itoa x) = false) as Hcr.
    { rewrite has_byte_append, itoa_bytes by reflexivity. reflexivity. }
    assert (Trim SP (" " +:+ itoa x) = itoa x) as Htrim.
    { unfold Trim. change (" " +:+ itoa x) with (String SP (itoa x)).
      cbn [TrimLeft]. rewrite Ascii.eqb_refl.
      rewrite TrimLeft_none by (apply itoa_bytes; reflexivity).
      apply TrimRight_none. apply itoa_bytes; reflexivity. }
    assert ("Status: " +:+ itoa x <> "") as Hne by discriminate.
    rewrite (header_line_nonempty _ _ _ Hne).
    unfold sets_status, status_header, line_calls, plain_header.
    rewrite (chomp_none _ Hcr).
    change (SplitN2 ":" ("Status: " +:+ itoa x)) with ["Status"; " " +:+ itoa x].
    cbv beta iota. rewrite Htrim.
    change (String.eqb (ToLower (Trim SP "Status")) "status") with true. cbv iota.
    change (Atoi (itoa x)) with (Form.ParseInt10 64 (itoa x)).
    rewrite (ParseInt10_itoa 64 x) by (simpl; lia).
    cbn [default]. now rewrite add_calls_nil.
  - unfold status_line.
    destruct (SplitN2 ":" (chomp line)) as [|p0 [|p1 rest]]; try discriminate;
      unfold status_re;
      (destruct (strip_prefix "HTTP/" (chomp line)) as [[|c r]|]; try discriminate;
       destruct (Ascii.eqb c LF); try discriminate;
       destruct (last_ddd r) as [t|] eqn:E; try discriminate;
       intros H; injection H as <-; now apply (last_ddd_value r)).
Qed.

End Patterns.

Lemma separator_search_exact_witness :
  exists i0 i1, eoh_FindIndex (go "A: b\r\n\nbody") = Some (i0, i1)
                /\ (i0 <= String.length "A: b")%nat.
Proof.
  apply (proj2 (separator_search_exact (go "A: b\r\n\nbody")) "A: b" (go "\r\n\n") "body").
  - reflexivity.
  - simpl. tauto.
Defined.

Lemma status_values_witness :
  header_line ("Status: " +:+ itoa (-5)) 200 (fresh []) = (Done (-5), fresh [])
  /\ (status_line "HTTP/1.1 099" = Some 99 -> 0 <= 99 <= 999).
Proof.
  apply (status_values "HTTP/1.1 099" (-5) 99 200 (fresh [])). lia.
Defined.

(** ** More on the subprocess environment *)

Section EnvironmentLookup.

Lemma cut_assign (k v : string) :
  has_byte "=" k = false -> cut (assign k v) = Some (k, v).
Proof.
  unfold assign. induction k as [|c k IH]; [reflexivity|].
  cbn [has_byte]. intros [Hc Hk]%orb_false_iff.
  rewrite append_cons. cbn [cut]. now rewrite Hc, (IH Hk).
Qed.

Lemma defines_assign (k k0 v0 : string) :
  has_byte "=" k0 = false ->
  defines k (assign k0 v0) = if String.eqb k0 k then Some v0 else None.
Proof. intros H0. unfold defines. now rewrite (cut_assign _ _ H0). Qed.

Lemma Getenv_of_pairs (kvs : list (string * string)) (k : string) :
  NoDup kvs.*1 ->
  (forall k' v', (k', v') ∈ kvs -> has_byte "=" k' = false) ->
  Getenv (List.map (fun kv => assign (fst kv) (snd kv)) kvs) k
  = (list_to_map kvs : gmap string string) !! k.
Proof.
  induction kvs as [|[k0 v0] kvs IH]; intros Hnd Hok; [reflexivity|].
  rewrite fmap_cons in Hnd. apply NoDup_cons in Hnd as [Hk0 Hnd].
  cbn [List.map Getenv list_to_map foldr fst snd].
  rewrite IH by (try assumption; intros k' v' H; apply (Hok k' v'); now right).
  rewrite defines_assign by (apply (Hok k0 v0); now left).
  destruct (String.eqb_spec k0 k) as [->|Hne].
  - rewrite lookup_insert_eq.
    now rewrite (proj1 (not_elem_of_list_to_map (M := gmap string) kvs k) Hk0).
  - rewrite lookup_insert_ne by assumption.
    destruct (list_to_map kvs !! k); reflexivity.
Qed.

(** The fixed entries encode the configured map: whatever order
    [NewCgiProcessor] visits the map in, looking a name up in the entries it
    makes gives the map's value for that name, provided no key of the map
    holds an [=]. *)
Theorem fixed_entries_encode_envmap (m : gmap string string)
    (kvs : list (string * string)) (bin k : string) (os : list string) :
  kvs ≡ₚ map_to_list m ->
  (forall k' v', m !! k' = Some v' -> has_byte "=" k' = false) ->
  Getenv (envs (NewCgiProcessor bin os kvs)) k = m !! k.
Proof.
  intros Hperm Hok. cbn [NewCgiProcessor envs].
  rewrite Getenv_of_pairs.
  - assert (list_to_map kvs = m) as ->; [|reflexivity].
    rewrite (list_to_map_proper (M := gmap string) kvs (map_to_list m)).
    + apply list_to_map_to_list.
    + rewrite Hperm. apply NoDup_fst_map_to_list.
    + exact Hperm.
  - rewrite Hperm. apply NoDup_fst_map_to_list.
  - intros k' v' Hin. rewrite Hperm in Hin. apply elem_of_map_to_list in Hin.
    now apply (Hok k' v').
Qed.

Lemma append_length (a b : string) :
  String.length (a +:+ b) = (String.length a + String.length b)%nat.
Proof. induction a as [|c a IH]; [reflexivity|]. rewrite append_cons. simpl. now rewrite IH. Qed.

(** A request header overrides the fixed and the CGI-standard variable of
    its normalised name: the subprocess observes the last value of the
    header, unless a header visited later defines the same name. *)
Theorem header_overrides_variable (self : CgiProcessor) (r : Request)
    (hs1 hs2 : list (string * list string)) (H v : string) (vs : list string) :
  Header r = hs1 ++ (H, vs ++ [v]) :: hs2 ->
  has_byte "=" (env_name H) = false ->
  Getenv (header_env hs2) (env_name H) = None ->
  Getenv (make_env self r) (env_name H) = Some v.
Proof.
  intros HH Hk Hlater. unfold make_env. rewrite HH.
  rewrite !Getenv_app.
  assert (header_env (hs1 ++ (H, vs ++ [v]) :: hs2)
          = (header_env (hs1 ++ [(H, vs)])
             ++ [assign (env_name H) v; assign ("HTTP_" +:+ env_name H) v])
            ++ header_env hs2) as ->.
  { rewrite (header_env_value hs1 H vs v [] hs2).
    rewrite <- !app_assoc. reflexivity. }
  rewrite !Getenv_app, Hlater. cbn [Getenv].
  rewrite !defines_assign; [| exact Hk | now rewrite has_byte_append, Hk].
  rewrite String.eqb_refl.
  assert (String.eqb ("HTTP_" +:+ env_name H) (env_name H) = false) as ->; [|reflexivity].
  apply String.eqb_neq. intros E. apply (f_equal String.length) in E.
  rewrite append_length in E. simpl in E. lia.
Qed.

End EnvironmentLookup.

Lemma fixed_entries_encode_envmap_witness :
  Getenv (envs (NewCgiProcessor "echo-cgi" [] (map_to_list {["LANG" := "C"]}))) "LANG"
  = ({["LANG" := "C"]} : gmap string string) !! "LANG".
Proof.
  apply (fixed_entries_encode_envmap {["LANG" := "C"]} (map_to_list {["LANG" := "C"]})
           "echo-cgi" "LANG" []).
  - reflexivity.
  - intros k' v' H. apply lookup_singleton_Some in H as [<- _]. reflexivity.
Defined.

Lemma header_overrides_variable_witness :
  Getenv (make_env echo_cgi
            (mkRequest "GET" "/report" "" 0 "api.example.com"
               ([] ++ ("Request-Method", [] ++ ["DELETE"]) :: [("X-Id", ["7"])])))
    "REQUEST_METHOD"
  = Some "DELETE".
Proof.
  apply (header_overrides_variable echo_cgi
           (mkRequest "GET" "/report" "" 0 "api.example.com"
              ([] ++ ("Request-Method", [] ++ ["DELETE"]) :: [("X-Id", ["7"])]))
           [] [("X-Id", ["7"])] "Request-Method" "DELETE" []); reflexivity.
Defined.

(** ** Building a chain: [Then] and [SetTimeout] *)

Section Linking.

Implicit Types (h : gmap addr DefaultProcessor.t) (l : list addr).

Lemma path_det h (o : option addr) l1 : forall l2,
  path h o l1 -> path h o l2 -> l1 = l2.
Proof.
  intros l2 H1. revert l2.
  induction H1 as [|a d l Ha _ IH]; intros l2 H2; inversion H2; subst; [reflexivity|].
  f_equal. apply IH. congruence.
Qed.

Lemma path_from_member h (o : option addr) l a :
  path h o l -> a ∈ l -> exists l1 l2, l = l1 ++ a :: l2 /\ path h (Some a) (a :: l2).
Proof.
  induction 1 as [|b d l Hb Hp IH]; intros Hin; [now apply elem_of_nil in Hin|].
  apply elem_of_cons in Hin as [->|Hin].
  - exists [], l. split; [reflexivity|]. now apply (path_cons _ b d).
  - destruct (IH Hin) as (l1 & l2 & -> & Hp2).
    exists (b :: l1), l2. split; [reflexivity | exact Hp2].
Qed.

(** A chain that reaches [nil] visits no processor twice. *)
Lemma path_NoDup h (o : option addr) l : path h o l -> NoDup l.
Proof.
  induction 1 as [|a d l Ha Hp IH]; [apply NoDup_nil_2|].
  apply NoDup_cons. split; [|exact IH].
  intros Hin. destruct (path_from_member _ _ _ _ Hp Hin) as (l1 & l2 & E & Hp2).
  assert (a :: l2 = a :: l) as E2.
  { apply (path_det h (Some a)); [exact Hp2 | now apply (path_cons _ a d)]. }
  injection E2 as E2. rewrite E2 in E. apply (f_equal length) in E.
  rewrite length_app in E. simpl in E. lia.
Qed.

Lemma path_last_next h (o : option addr) l a d :
  path h o l -> last l = Some a -> h !! a = Some d -> DefaultProcessor.next d = None.
Proof.
  induction 1 as [|b db l Hb Hp IH]; [discriminate|].
  destruct l as [|c l].
  - intros [= <-] Hd. inversion Hp. congruence.
  - rewrite last_cons_cons. exact IH.
Qed.

Lemma path_insert_other h (o : option addr) l self d' :
  path h o l -> self ∉ l -> path (<[self := d']> h) o l.
Proof.
  induction 1 as [|a d l Ha Hp IH]; intros Hn; [constructor|].
  apply not_elem_of_cons in Hn as [Hne Hn].
  apply (path_cons _ a d); [now rewrite lookup_insert_ne | now apply IH].
Qed.

Lemma path_append h l : forall (a self p : addr) d l2,
  path h (Some a) l -> last l = Some self -> h !! self = Some d ->
  path h (Some p) l2 -> self ∉ l2 ->
  path (<[self := DefaultProcessor.mk (DefaultProcessor.name d)
                    (DefaultProcessor.timeout d) (Some p)]> h) (Some a) (l ++ l2).
Proof.
  induction l as [|b l IH]; intros a self p d l2 Hp Hlast Hd Hp2 Hn; [discriminate|].
  assert (Hnd := path_NoDup _ _ _ Hp).
  inversion Hp as [|a' da l' Ha Hrest]; subst.
  destruct (decide (b = self)) as [->|Hne].
  - assert (l = []) as ->.
    { destruct l as [|c l]; [reflexivity|]. exfalso.
      rewrite last_cons_cons in Hlast. apply last_Some_elem_of in Hlast.
      apply NoDup_cons in Hnd as [Hnot _]. contradiction. }
    cbn [app]. eapply path_cons; [apply lookup_insert_eq|]. cbn.
    now apply path_insert_other.
  - destruct l as [|c l]; [cbn in Hlast; congruence|].
    rewrite last_cons_cons in Hlast.
    inversion Hrest as [|c' dc l'' Hc Hrest' E1]; subst.
    apply (path_cons _ b da); [now rewrite lookup_insert_ne|].
    rewrite <- E1. apply (IH c self p d l2); try assumption. now rewrite E1.
Qed.

(** [Then] links once: on a processor without successor it sets the
    successor and leaves every timeout and every other link as it was, and
    the chain that ended there now runs on into the chain of the new
    successor; on a processor that has a successor it panics -- so, too, when
    called a second time. *)
Theorem Then_links_once h (a self p p' : addr) l l2 :
  path h (Some a) l -> last l = Some self ->
  path h (Some p) l2 -> self ∉ l2 ->
  exists h',
    Link.Then self p h = Done h'
    /\ path h' (Some a) (l ++ l2)
    /\ (forall q, DefaultProcessor.GetTimeout q h' = DefaultProcessor.GetTimeout q h)
    /\ (forall q, q <> self -> h' !! q = h !! q)
    /\ Link.Then self p' h' = Panicked.
Proof.
  intros Hp Hlast Hp2 Hn.
  assert (self ∈ l) as Hin by (now apply last_Some_elem_of).
  destruct (path_from_member _ _ _ _ Hp Hin) as (l1 & l3 & _ & Hps).
  inversion Hps as [|s d l' Hd _]; subst.
  assert (Hnext := path_last_next _ _ _ _ _ Hp Hlast Hd).
  eexists. split; [|split; [|split; [|split]]].
  - unfold Link.Then. rewrite Hd, Hnext. reflexivity.
  - now apply path_append.
  - intros q. unfold DefaultProcessor.GetTimeout.
    destruct (decide (self = q)) as [<-|Hne].
    + now rewrite lookup_insert_eq, Hd.
    + now rewrite lookup_insert_ne.
  - intros q Hq. now rewrite lookup_insert_ne.
  - unfold Link.Then. now rewrite lookup_insert_eq.
Qed.

Lemma loop_sets_ge l : forall h (o : option addr) i q fuel,
  path h o l -> 0 < i -> (length l <= fuel)%nat ->
  BaseEntry.loop fuel o i h !! q =
    if decide (q ∈ l) then DefaultProcessor.with_timeout i <$> h !! q else h !! q.
Proof.
  induction l as [|a l IH]; intros h o i q fuel Hp Hi Hf; inversion Hp; subst.
  - destruct fuel; cbn [BaseEntry.loop];
      (destruct (decide (q ∈ [])) as [Hin|_]; [now apply not_elem_of_nil in Hin | reflexivity]).
  - destruct fuel as [|fuel]; [simpl in Hf; lia|]. cbn [BaseEntry.loop].
    rewrite (IH _ _ i q fuel); [| | assumption | simpl in Hf; lia].
    2:{ rewrite SetTimeout_getnext. unfold DefaultProcessor.getnext.
        match goal with H : h !! a = Some _ |- _ => rewrite H end. cbn.
        now apply path_SetTimeout. }
    rewrite SetTimeout_lookup.
    destruct (decide (q ∈ l)) as [Hin|Hin].
    + rewrite (decide_True (P := q ∈ a :: l)) by (apply elem_of_cons; now right).
      case_decide; [|reflexivity]. destruct (h !! q); reflexivity.
    + destruct (decide (a = q)) as [->|Hne].
      * rewrite (decide_True (P := 0 < i /\ q = q)) by done.
        rewrite (decide_True (P := q ∈ q :: l)) by (apply elem_of_cons; now left).
        reflexivity.
      * rewrite (decide_False (P := 0 < i /\ a = q)) by (intros [_ ?]; congruence).
        rewrite (decide_False (P := q ∈ a :: l)); [reflexivity|].
        intros [->|?]%elem_of_cons; congruence.
Qed.

(** An entry's [SetTimeout] with a positive value reaches the whole chain:
    on a chain that ends in [nil] the loop ends after as many rounds as the
    chain is long, and then every processor of the chain has the new timeout
    while every other processor keeps its own; the links are as before. *)
Theorem Entry_SetTimeout_sets_chain (e : BaseEntry.t) h l (i : Z) (fuel : nat) :
  path h (BaseEntry.proc e) l -> 0 < i -> (length l <= fuel)%nat ->
  BaseEntry.finished (length l) (BaseEntry.proc e) i h = true
  /\ (forall q,
        DefaultProcessor.GetTimeout q (BaseEntry.SetTimeout fuel e i h)
        = if decide (q ∈ l) then (fun _ => i) <$> h !! q
          else DefaultProcessor.GetTimeout q h)
  /\ path (BaseEntry.SetTimeout fuel e i h) (BaseEntry.proc e) l.
Proof.
  intros Hp Hi Hf. split; [now apply loop_finishes|].
  assert ((0 <? i) = true) as Hpos by (now apply Z.ltb_lt).
  split.
  - intros q. unfold DefaultProcessor.GetTimeout, BaseEntry.SetTimeout.
    rewrite Hpos, (loop_sets_ge l h _ i q fuel Hp Hi Hf).
    case_decide; [|reflexivity]. destruct (h !! q); reflexivity.
  - unfold BaseEntry.SetTimeout. rewrite Hpos.
    assert (forall o l', path h o l' -> path (BaseEntry.loop fuel (BaseEntry.proc e) i h) o l')
      as Hkeep; [|now apply Hkeep].
    intros o l'. induction 1 as [|a d l' Ha _ IH]; [constructor|].
    assert (Hl := loop_sets_ge l h _ i a fuel Hp Hi Hf). rewrite Ha in Hl.
    destruct (decide (a ∈ l)); eapply path_cons; try exact Hl; exact IH.
Qed.

End Linking.

Lemma Then_links_once_witness :
  exists h',
    Link.Then 2%nat 3%nat
      (<[3%nat := DefaultProcessor.mk "cgi" 0 None]> two_processors) = Done h'
    /\ path h' (Some 1%nat) ([1%nat; 2%nat] ++ [3%nat])
    /\ (forall q, DefaultProcessor.GetTimeout q h'
                  = DefaultProcessor.GetTimeout q
                      (<[3%nat := DefaultProcessor.mk "cgi" 0 None]> two_processors))
    /\ (forall q, q <> 2%nat ->
          h' !! q = (<[3%nat := DefaultProcessor.mk "cgi" 0 None]> two_processors) !! q)
    /\ Link.Then 2%nat 1%nat h' = Panicked.
Proof.
  apply (Then_links_once (<[3%nat := DefaultProcessor.mk "cgi" 0 None]> two_processors)
           1%nat 2%nat 3%nat 1%nat [1%nat; 2%nat] [3%nat]).
  - eapply path_cons; [reflexivity|]. eapply path_cons; [reflexivity|]. constructor.
  - reflexivity.
  - eapply path_cons; [reflexivity|]. constructor.
  - intros H. apply list_elem_of_singleton in H. discriminate.
Defined.

Lemma Entry_SetTimeout_sets_chain_witness :
  BaseEntry.finished 2 (Some 1%nat) 250 two_processors = true
  /\ (forall q,
        DefaultProcessor.GetTimeout q (BaseEntry.SetTimeout 5 entry_at_1 250 two_processors)
        = if decide (q ∈ [1%nat; 2%nat]) then (fun _ => 250) <$> two_processors !! q
          else DefaultProcessor.GetTimeout q two_processors)
  /\ path (BaseEntry.SetTimeout 5 entry_at_1 250 two_processors) (Some 1%nat)
       [1%nat; 2%nat].
Proof.
  apply (Entry_SetTimeout_sets_chain entry_at_1 two_processors [1%nat; 2%nat] 250 5).
  - eapply path_cons; [reflexivity|]. eapply path_cons; [reflexivity|]. constructor.
  - lia.
  - simpl. lia.
Defined.

(** ** Running a chain: [Exec], [Process] and [RunNext] *)

Section Running.

Variable h : gmap addr DefaultProcessor.t.
Variable code : addr -> Engine.Prog.

Local Abbreviation exec := (Engine.exec h code).

Lemma exec_S (fuel : nat) (prog : Engine.Prog) (st : Engine.Run) :
  exec (S fuel) prog st =
    match prog with
    | Engine.Ret => Some st
    | Engine.DoSendBytes b k => exec (S fuel) k (Engine.on_ctx (NxCtx.SendBytes b) st)
    | Engine.DoSendString t k => exec (S fuel) k (Engine.on_ctx (NxCtx.SendString t) st)
    | Engine.DoPutData key v k =>
        exec (S fuel) k
          (Engine.mkRun (Engine.ctx st) (Data.PutData key v (Engine.data st))
             (Engine.cproc st) (Engine.entered st))
    | Engine.DoEnd status k => exec (S fuel) k (Engine.on_ctx (NxCtx.End status) st)
    | Engine.AskStopped k => exec (S fuel) (k (stopped (Engine.ctx st))) st
    | Engine.DoRunNext k =>
        match Engine.cproc st with
        | Some c =>
            if negb (stopped (Engine.ctx st)) then
              match DefaultProcessor.getnext c h with
              | Some p =>
                  match exec fuel (code p)
                          (Engine.mkRun (Engine.ctx st) (Engine.data st) (Some p)
                             (Engine.entered st ++ [p])) with
                  | Some st' => exec (S fuel) k st'
                  | None => None
                  end
              | None => exec (S fuel) k st
              end
            else exec (S fuel) k st
        | None => exec (S fuel) k st
        end
    end.
Proof. destruct prog; reflexivity. Qed.

Lemma path_next_of_last (pre : list addr) : forall (o : option addr) post c,
  path h o (pre ++ post) -> last pre = Some c ->
  DefaultProcessor.getnext c h = List.head post.
Proof.
  induction pre as [|b pre IH]; intros o post c Hp Hlast; [discriminate|].
  inversion Hp as [|b' d l Hb Hrest]; subst.
  destruct pre as [|b2 pre].
  - injection Hlast as <-. unfold DefaultProcessor.getnext. rewrite Hb. cbn.
    cbn [app] in Hrest. inversion Hrest; reflexivity.
  - rewrite last_cons_cons in Hlast. now apply (IH (DefaultProcessor.next d)).
Qed.

Lemma last_is_Some_cons (pre : list addr) : pre <> [] -> exists c, last pre = Some c.
Proof. intros Hne. now apply last_is_Some. Qed.

Lemma stands_same L pre st st2 :
  stands L pre st -> Engine.entered st2 = Engine.entered st ->
  Engine.cproc st2 = Engine.cproc st -> stands L pre st2.
Proof. intros (post & ? & ? & ? & ?) E1 E2. exists post. repeat split; congruence. Qed.

Lemma exec_keeps_order (o : option addr) (L : list addr) :
  path h o L ->
  forall fuel prog st pre,
    stands L pre st ->
    (forall st', exec fuel prog st = Some st' ->
       exists mid, stands L (pre ++ mid) st')
    /\ ((length L - length pre < fuel)%nat -> is_Some (exec fuel prog st)).
Proof.
  intros HL. induction fuel as [|fuel IHf]; intros prog st pre Hst.
  { split; [discriminate | lia]. }
  revert st pre Hst.
  induction prog as [|b k IH|t k IH|key v k IH|status k IH|k IH|k IH];
    intros st pre Hst; rewrite exec_S.
  - split; [|eauto]. intros st' [= <-]. exists []. now rewrite app_nil_r.
  - apply IH. now apply (stands_same L pre st).
  - apply IH. now apply (stands_same L pre st).
  - apply IH. now apply (stands_same L pre st).
  - apply IH. now apply (stands_same L pre st).
  - destruct Hst as (post & HLe & Hne & Hent & Hc).
    assert (stands L pre st) as Hst by (exists post; auto).
    destruct (last_is_Some_cons pre Hne) as [c Hlast].
    rewrite Hc, Hlast.
    destruct (negb (stopped (Engine.ctx st))); [|now apply IH].
    assert (HL' := HL). rewrite HLe in HL'.
    rewrite (path_next_of_last pre o post c HL' Hlast).
    destruct post as [|p post]; cbn [List.head]; [now apply IH|].
    assert (stands L (pre ++ [p])
              (Engine.mkRun (Engine.ctx st) (Engine.data st) (Some p)
                 (Engine.entered st ++ [p]))) as Hst1.
    { exists post. rewrite <- app_assoc. cbn [app]. split; [exact HLe|].
      split; [now destruct pre|]. cbn. rewrite Hent. split; [reflexivity|].
      now rewrite last_snoc. }
    destruct (IHf (code p) _ _ Hst1) as [Hord Hterm].
    split.
    + intros st'. destruct (exec fuel (code p) _) as [st2|] eqn:E2; [|discriminate].
      destruct (Hord st2 eq_refl) as [mid1 Hst2].
      intros H'. destruct (proj1 (IH st2 _ Hst2) st' H') as [mid2 Hst'].
      exists ([p] ++ mid1 ++ mid2). now rewrite !app_assoc in *.
    + intros Hlen. rewrite HLe in Hlen. rewrite !length_app in Hlen. cbn in Hlen.
      destruct Hterm as [st2 E2].
      { rewrite HLe. rewrite !length_app. cbn. lia. }
      rewrite E2. destruct (Hord st2 E2) as [mid1 Hst2].
      apply (IH st2 _ Hst2). rewrite HLe, !length_app. cbn. lia.
  - now apply IH.
Qed.

(** The processors of a chain run in the order of the chain and each at
    most once, however their code calls [RunNext]: those entered are always
    the first so many of the chain, and the current processor is the last
    entered.  The nesting of [Process] calls never exceeds the length of the
    chain. *)
Theorem chain_runs_in_order (root : addr) (L : list addr) (fuel : nat)
    (entry_data : list (string * Any)) (ps : list string) :
  path h (Some root) L ->
  (forall st', exec fuel (code root) (begin_run root entry_data ps) = Some st' ->
     Engine.entered st' `prefix_of` L
     /\ NoDup (Engine.entered st')
     /\ Engine.cproc st' = last (Engine.entered st'))
  /\ ((length L <= fuel)%nat ->
      is_Some (exec fuel (code root) (begin_run root entry_data ps))).
Proof.
  intros HL.
  assert (stands L [root] (begin_run root entry_data ps)) as Hst.
  { inversion HL; subst. eexists. split; [reflexivity|]. split; [discriminate|].
    split; reflexivity. }
  destruct (exec_keeps_order _ L HL fuel (code root) _ _ Hst) as [Hord Hterm].
  split.
  - intros st' H'. destruct (Hord st' H') as (mid & post & HLe & _ & Hent & Hc).
    rewrite Hent. split; [now exists post|]. split; [|exact Hc].
    apply path_NoDup in HL. rewrite HLe in HL. now apply NoDup_app in HL as [? _].
  - intros Hlen. apply Hterm. destruct L; [inversion HL | simpl in *; lia].
Qed.


Lemma exec_passes (o : option addr) (L : list addr) :
  path h o L ->
  (forall p, p ∈ L -> Engine.never_Ends (code p) /\ Engine.calls_RunNext (code p)) ->
  forall fuel prog st pre st',
    stands L pre st ->
    stopped (Engine.ctx st) = false ->
    Engine.never_Ends prog ->
    exec fuel prog st = Some st' ->
    stopped (Engine.ctx st') = false
    /\ (stands L pre st' \/ stands L L st')
    /\ (Engine.calls_RunNext prog -> stands L L st').
Proof.
  intros HL Hall. induction fuel as [|fuel IHf]; intros prog st pre st' Hst Hs Hne;
    [discriminate|].
  revert st pre Hst Hs Hne.
  induction prog as [|b k IH|t k IH|key v k IH|status k IH|k IH|k IH];
    intros st pre Hst Hs Hne; rewrite exec_S.
  - intros [= <-]. split; [exact Hs|]. split; [now left | intros []].
  - apply IH; [now apply (stands_same L pre st) | exact Hs | exact Hne].
  - apply IH; [now apply (stands_same L pre st) | exact Hs | exact Hne].
  - apply IH; [now apply (stands_same L pre st) | exact Hs | exact Hne].
  - destruct Hne.
  - destruct Hst as (post & HLe & Hnil & Hent & Hc).
    assert (stands L pre st) as Hst by (exists post; auto).
    destruct (last_is_Some_cons pre Hnil) as [c Hlast].
    rewrite Hc, Hlast, Hs. cbn [negb].
    assert (HL' := HL). rewrite HLe in HL'.
    rewrite (path_next_of_last pre o post c HL' Hlast).
    destruct post as [|p post]; cbn [List.head].
    + rewrite app_nil_r in HLe. subst pre.
      intros H'. destruct (IH st L Hst Hs Hne H') as (H1 & H2 & _).
      split; [exact H1|]. split; [exact H2|]. intros _. tauto.
    + assert (stands L (pre ++ [p])
                (Engine.mkRun (Engine.ctx st) (Engine.data st) (Some p)
                   (Engine.entered st ++ [p]))) as Hst1.
      { exists post. rewrite <- app_assoc. cbn [app]. split; [exact HLe|].
        split; [now destruct pre|]. cbn. rewrite Hent. split; [reflexivity|].
        now rewrite last_snoc. }
      assert (p ∈ L) as Hp
        by (rewrite HLe; apply elem_of_app; right; apply elem_of_cons; now left).
      destruct (Hall p Hp) as [Hpn Hpc].
      destruct (exec fuel (code p) _) as [st2|] eqn:E2; [|discriminate].
      destruct (IHf (code p) _ _ st2 Hst1 Hs Hpn E2) as (H1 & _ & H3).
      specialize (H3 Hpc).
      intros H'. destruct (IH st2 L H3 H1 Hne H') as (H4 & H5 & _).
      split; [exact H4|]. split; [right; tauto | intros _; tauto].
  - rewrite Hs. apply IH; [exact Hst | exact Hs | apply Hne].
Qed.


End Running.

Lemma chain_runs_in_order_witness :
  (forall st',
     Engine.exec two_processors report_code 2 (report_code 1%nat)
       (begin_run 1%nat [("role", AOther 7)] ["42"]) = Some st' ->
     Engine.entered st' `prefix_of` [1%nat; 2%nat]
     /\ NoDup (Engine.entered st')
     /\ Engine.cproc st' = last (Engine.entered st'))
  /\ ((length [1%nat; 2%nat] <= 2)%nat ->
      is_Some (Engine.exec two_processors report_code 2 (report_code 1%nat)
                 (begin_run 1%nat [("role", AOther 7)] ["42"]))).
Proof.
  apply (chain_runs_in_order two_processors report_code 1%nat [1%nat; 2%nat] 2
           [("role", AOther 7)] ["42"]).
  eapply path_cons; [reflexivity|]. eapply path_cons; [reflexivity|]. constructor.
Defined.



(** ** Routing and registration: [handler.go] *)

Section Routes.

Variable E : Type.
Variable H : Type.
Variable Match : E -> string -> option (list string).
Variable StripPrefix : string -> H -> H.
Variable NewRegexpEntry : string -> list addr -> Res E.

Local Abbreviation find := (Handler.find E Match).
Local Abbreviation route := (Handler.route E H Match).
Local Abbreviation allow := (Handler.allow E H Match).
Local Abbreviation Mount := (Handler.Mount E H StripPrefix).
Local Abbreviation setup_call := (Handler.setup_call E H StripPrefix NewRegexpEntry).
Local Abbreviation setup := (Handler.setup E H StripPrefix NewRegexpEntry).

Lemma find_None (kvs : list (string * E)) (path : string) :
  find kvs path = None <-> forall k en, (k, en) ∈ kvs -> Match en path = None.
Proof.
  induction kvs as [|[k0 e0] kvs IH]; cbn [Handler.find].
  - split; [|reflexivity]. intros _ k en Hin. now apply elem_of_nil in Hin.
  - destruct (Match e0 path) as [ps|] eqn:E0.
    + split; [discriminate|]. intros Hall.
      rewrite (Hall k0 e0) in E0; [discriminate | apply elem_of_cons; now left].
    + rewrite IH. split.
      * intros Hall k en Hin. apply elem_of_cons in Hin as [[= -> ->]|Hin];
          [exact E0 | now apply (Hall k)].
      * intros Hall k en Hin. apply (Hall k). apply elem_of_cons. now right.
Qed.

Lemma find_Some (kvs : list (string * E)) (path : string) en ps :
  find kvs path = Some (en, ps) ->
  exists k, (k, en) ∈ kvs /\ Match en path = Some ps.
Proof.
  induction kvs as [|[k0 e0] kvs IH]; cbn [Handler.find]; [discriminate|].
  destruct (Match e0 path) as [ps0|] eqn:E0.
  - intros [= <- <-]. exists k0. split; [apply elem_of_cons; now left | exact E0].
  - intros Hf. destruct (IH Hf) as (k & Hin & Hm).
    exists k. split; [apply elem_of_cons; now right | exact Hm].
Qed.

(** [find] over a map, whatever the order its [range] visits it in: it
    finds nothing exactly when no entry of the map matches the path; what it
    finds is an entry of the map together with that entry's own parameters
    for the path; and when the entries that match all sit under one key, it
    is that entry which is found -- the order matters only between several
    matching entries. *)
Theorem find_any_order (m : gmap string E) (kvs : list (string * E)) (path : string) :
  kvs ≡ₚ map_to_list m ->
  (find kvs path = None <-> forall k en, m !! k = Some en -> Match en path = None)
  /\ (forall en ps, find kvs path = Some (en, ps) ->
        exists k, m !! k = Some en /\ Match en path = Some ps)
  /\ (forall k en ps,
        m !! k = Some en -> Match en path = Some ps ->
        (forall k' en' ps', m !! k' = Some en' -> Match en' path = Some ps' -> k' = k) ->
        find kvs path = Some (en, ps)).
Proof.
  intros Hperm.
  assert (forall k en, (k, en) ∈ kvs <-> m !! k = Some en) as Hin.
  { intros k en. rewrite Hperm. apply elem_of_map_to_list. }
  assert (forall en ps, find kvs path = Some (en, ps) ->
            exists k, m !! k = Some en /\ Match en path = Some ps) as Hsome.
  { intros en ps Hf. destruct (find_Some _ _ _ _ Hf) as (k & Hk & Hm).
    exists k. split; [now apply Hin | exact Hm]. }
  split; [|split; [exact Hsome|]].
  - rewrite find_None. split; intros Hall k en Hk; apply (Hall k); now apply Hin.
  - intros k en ps Hk Hm Honly.
    destruct (find kvs path) as [[en' ps']|] eqn:Hf.
    + destruct (Hsome en' ps' eq_refl) as (k' & Hk' & Hm').
      assert (k' = k) as -> by (now apply (Honly k' en' ps')).
      assert (en' = en) as -> by congruence. congruence.
    + rewrite (proj1 (find_None kvs path) Hf k en) in Hm; [discriminate | now apply Hin].
Qed.

(** An [OPTIONS] request is always answered by the handler itself, without
    a body and never through an entry or a mounted handler.  The methods it
    allows are, in the order GET, POST, DELETE, PUT, exactly the methods
    under which the same path is handed to an entry; no other method ever
    reaches an entry.  The status is 200 with the methods joined by commas in
    [access-control-allow-methods] when there is such a method, and 501
    without any header otherwise. *)
Theorem options_lists_routed_methods (v : Handler.Visit E H)
    (path origin acrh : string) :
  exists cs,
    route v "OPTIONS" path origin acrh = Handler.Answered E H cs
    /\ body cs = []
    /\ sublist (allow v path) ["GET"; "POST"; "DELETE"; "PUT"]
    /\ (forall m, m ∈ allow v path <->
          exists en args, route v m path origin acrh = Handler.ToEntry E H en args)
    /\ committed cs = Some (if decide (allow v path = []) then 501 else 200)
    /\ header_sets cs =
         if decide (allow v path = []) then []
         else [("access-control-allow-methods", Handler.Join (allow v path) ",");
               ("access-control-allow-origin", origin);
               ("access-control-max-age", "180");
               ("access-control-allow-headers", acrh)].
Proof.
  assert (forall m, m ∈ allow v path <->
            exists en args, route v m path origin acrh = Handler.ToEntry E H en args)
    as Hiff.
  { intros m. split.
    - unfold Handler.allow. rewrite !elem_of_app.
      intros [Hm|[Hm|[Hm|Hm]]];
        match type of Hm with
        | _ ∈ (if Handler.found _ ?f then _ else _) =>
            destruct f as [[en args]|] eqn:Hf; cbn [Handler.found] in Hm;
              [apply list_elem_of_singleton in Hm; subst m
              | now apply elem_of_nil in Hm]
        end;
        exists en, args; unfold Handler.route; cbn; now rewrite Hf.
    - intros (en & args & Hr). unfold Handler.route in Hr.
      destruct (String.eqb m "OPTIONS") eqn:E0.
      { destruct (0 <? _); discriminate. }
      unfold Handler.allow. rewrite !elem_of_app.
      destruct (String.eqb m "GET") eqn:E1.
      { apply String.eqb_eq in E1. subst m.
        destruct (Handler.find E Match (Handler.vget E H v) path) as [[e a]|];
          [left; cbn; apply list_elem_of_singleton; reflexivity|].
        destruct (Handler.first_mount _ _ _) as [[? ?]|]; discriminate. }
      destruct (String.eqb m "POST") eqn:E2.
      { apply String.eqb_eq in E2. subst m.
        destruct (Handler.find E Match (Handler.vpost E H v) path) as [[e a]|];
          [right; left; cbn; apply list_elem_of_singleton; reflexivity|].
        destruct (Handler.first_mount _ _ _) as [[? ?]|]; discriminate. }
      destruct (String.eqb m "DELETE") eqn:E3.
      { apply String.eqb_eq in E3. subst m.
        destruct (Handler.find E Match (Handler.vdel E H v) path) as [[e a]|];
          [right; right; left; cbn; apply list_elem_of_singleton; reflexivity|].
        destruct (Handler.first_mount _ _ _) as [[? ?]|]; discriminate. }
      destruct (String.eqb m "PUT") eqn:E4.
      { apply String.eqb_eq in E4. subst m.
        destruct (Handler.find E Match (Handler.vput E H v) path) as [[e a]|];
          [right; right; right; cbn; apply list_elem_of_singleton; reflexivity|].
        destruct (Handler.first_mount _ _ _) as [[? ?]|]; discriminate. }
      destruct (Handler.first_mount _ _ _) as [[? ?]|]; discriminate. }
  assert (sublist (allow v path) ["GET"; "POST"; "DELETE"; "PUT"]) as Hsub.
  { unfold Handler.allow.
    change ["GET"; "POST"; "DELETE"; "PUT"]
      with (["GET"] ++ ["POST"] ++ ["DELETE"] ++ ["PUT"]).
    repeat apply sublist_app;
      match goal with
      | |- sublist (if ?b then _ else _) _ =>
          destruct b; [reflexivity | apply sublist_nil_l]
      end. }
  assert (route v "OPTIONS" path origin acrh =
            if 0 <? Z.of_nat (length (allow v path)) then
              Handler.Answered E H
                [HeaderSet "access-control-allow-methods" (Handler.Join (allow v path) ",");
                 HeaderSet "access-control-allow-origin" origin;
                 HeaderSet "access-control-max-age" "180";
                 HeaderSet "access-control-allow-headers" acrh;
                 WriteHeader 200]
            else Handler.Answered E H [WriteHeader 501]) as -> by reflexivity.
  destruct (allow v path) as [|m0 ms] eqn:Ha.
  - eexists. split; [reflexivity|]. split; [reflexivity|].
    split; [exact Hsub|]. split; [exact Hiff|]. split; reflexivity.
  - eexists. split; [reflexivity|]. split; [reflexivity|].
    split; [exact Hsub|]. split; [exact Hiff|]. split; reflexivity.
Qed.

Lemma Mount_nil_map (subpath : string) (handler : H) (self : Handler.NxHandler E H) :
  Handler.mounts E H self = None -> Mount subpath handler self = Panicked.
Proof.
  intros Hnil. unfold Handler.Mount. rewrite Hnil. now destruct (_ || _).
Qed.

Lemma setup_call_keeps_nil (c : Handler.Setup H) (self self' : Handler.NxHandler E H) :
  Handler.mounts E H self = None -> setup_call c self = Done self' ->
  Handler.mounts E H self' = None.
Proof.
  intros Hnil. destruct c as [pt ps|pt ps|pt ps|pt ps|ms|sp hd]; cbn [Handler.setup_call].
  1-4: match goal with
       | |- Handler.with_map _ _ ?r _ = _ -> _ =>
           destruct r as [m|]; cbn [Handler.with_map]; [|discriminate];
             intros [= <-]; exact Hnil
       end.
  - intros [= <-]. exact Hnil.
  - now rewrite Mount_nil_map.
Qed.

(** No set-up that starts from [NewNxHandler] and calls [Mount] gets
    through: [NewNxHandler] makes the four route maps but not [mounts], no
    other call makes it, and [Mount] writes into it.  Whatever is registered
    before or after, and whatever the sub-path, the set-up panics. *)
Theorem Mount_never_succeeds (cs : list (Handler.Setup H)) (subpath : string) (handler : H) :
  Handler.DoMount H subpath handler ∈ cs ->
  setup cs (Handler.NewNxHandler E H) = Panicked.
Proof.
  assert (forall self, Handler.mounts E H self = None ->
            Handler.DoMount H subpath handler ∈ cs -> setup cs self = Panicked) as Hgen.
  { induction cs as [|c cs IH]; intros self Hnil Hin; [now apply elem_of_nil in Hin|].
    cbn [Handler.setup].
    destruct (setup_call c self) as [self'|] eqn:Hc; [|reflexivity].
    apply elem_of_cons in Hin as [<-|Hin].
    - cbn [Handler.setup_call] in Hc. now rewrite Mount_nil_map in Hc.
    - apply IH; [|exact Hin]. now apply (setup_call_keeps_nil c self). }
  now apply Hgen.
Qed.

End Routes.

Section Registration.

Variable E : Type.
Variable NewRegexpEntry : string -> list addr -> Res E.

Local Abbreviation addprocs := (Handler.addprocs E NewRegexpEntry).


End Registration.

Lemma find_any_order_witness :
  (Handler.find string Handler.prefix_entry
     (map_to_list {["user" := "/user/"; "item" := "/item/"]}) "/item/7" = None
   <-> forall k en,
         ({["user" := "/user/"; "item" := "/item/"]} : gmap string string) !! k = Some en ->
         Handler.prefix_entry en "/item/7" = None)
  /\ (forall en ps,
        Handler.find string Handler.prefix_entry
          (map_to_list {["user" := "/user/"; "item" := "/item/"]}) "/item/7" = Some (en, ps) ->
        exists k,
          ({["user" := "/user/"; "item" := "/item/"]} : gmap string string) !! k = Some en
          /\ Handler.prefix_entry en "/item/7" = Some ps)
  /\ (forall k en ps,
        ({["user" := "/user/"; "item" := "/item/"]} : gmap string string) !! k = Some en ->
        Handler.prefix_entry en "/item/7" = Some ps ->
        (forall k' en' ps',
           ({["user" := "/user/"; "item" := "/item/"]} : gmap string string) !! k' = Some en' ->
           Handler.prefix_entry en' "/item/7" = Some ps' -> k' = k) ->
        Handler.find string Handler.prefix_entry
          (map_to_list {["user" := "/user/"; "item" := "/item/"]}) "/item/7" = Some (en, ps)).
Proof.
  apply (find_any_order string Handler.prefix_entry
           {["user" := "/user/"; "item" := "/item/"]}
           (map_to_list {["user" := "/user/"; "item" := "/item/"]}) "/item/7").
  reflexivity.
Defined.

Lemma Mount_never_succeeds_witness :
  Handler.setup string string (fun _ hd => hd) (fun pt _ => Done pt)
    [Handler.DoGet string "^/$" [1%nat]; Handler.DoMount string "/static" "files";
     Handler.SetTimeout string 3000]
    (Handler.NewNxHandler string string) = Panicked.
Proof.
  apply (Mount_never_succeeds string string (fun _ hd => hd) (fun pt _ => Done pt)
           [Handler.DoGet string "^/$" [1%nat]; Handler.DoMount string "/static" "files";
            Handler.SetTimeout string 3000] "/static" "files").
  apply elem_of_cons. right. apply elem_of_cons. now left.
Defined.


(** ** The arguments of [addcgi] *)

Section CgiArguments.

Import Handler.

Lemma parse_args_config (cfg : list Arg) : forall (rest : list Arg) (acc : Parsed),
  Forall (fun a => is_config a = true) cfg -> wantproc acc = false ->
  parse_args (cfg ++ rest) acc =
    parse_args rest
      (mkParsed (p_opts acc ++ concat (opts_of <$> cfg))
         (foldl (fun e a => envs_of a ∪ e) (p_envs acc) cfg) (p_procs acc) false).
Proof.
  induction cfg as [|a cfg IH]; intros rest acc Hcfg Hw.
  - cbn. rewrite app_nil_r. destruct acc; cbn in *; now subst.
  - apply Forall_cons in Hcfg as [Ha Hcfg].
    destruct a as [ss|m|p|]; try discriminate; cbn [app parse_args]; rewrite Hw;
      rewrite IH by (assumption || reflexivity); cbn; f_equal; f_equal.
    + now rewrite <- app_assoc.
    + now rewrite (left_id_L ∅ (∪)).
Qed.

Lemma parse_args_procs (procs : list addr) : forall (acc : Parsed),
  parse_args (ArgProc <$> procs) acc =
    Done (mkParsed (p_opts acc) (p_envs acc) (p_procs acc ++ procs)
            (match procs with [] => wantproc acc | _ => true end)).
Proof.
  induction procs as [|p procs IH]; intros acc.
  - cbn. rewrite app_nil_r. now destruct acc.
  - rewrite fmap_cons. cbn [parse_args].
    rewrite IH. cbn. rewrite <- app_assoc. now destruct procs.
Qed.

Lemma parse_args_shape (args : list Arg) : forall (acc : Parsed) r,
  parse_args args acc = Done r ->
  exists cfg procs,
    args = cfg ++ (ArgProc <$> procs)
    /\ Forall (fun a => is_config a = true) cfg
    /\ (wantproc acc = true -> cfg = []).
Proof.
  induction args as [|a args IH]; intros acc r Hr.
  - exists [], []. split; [reflexivity|]. split; [constructor | reflexivity].
  - destruct a as [ss|m|p|]; cbn [parse_args] in Hr; try discriminate.
    + destruct (wantproc acc) eqn:Hw; [discriminate|].
      destruct (IH _ _ Hr) as (cfg & procs & -> & Hcfg & _).
      exists (ArgOpts ss :: cfg), procs. split; [reflexivity|].
      split; [now constructor | discriminate].
    + destruct (wantproc acc) eqn:Hw; [discriminate|].
      destruct (IH _ _ Hr) as (cfg & procs & -> & Hcfg & _).
      exists (ArgEnvs m :: cfg), procs. split; [reflexivity|].
      split; [now constructor | discriminate].
    + destruct (IH _ _ Hr) as (cfg & procs & -> & Hcfg & Hnil).
      rewrite (Hnil eq_refl). exists [], (p :: procs).
      split; [reflexivity|]. split; [constructor | reflexivity].
Qed.

Lemma last_env_foldl (k : string) (cfg : list Arg) : forall (e0 : gmap string string),
  foldl (fun e a => envs_of a ∪ e) e0 cfg !! k =
    match last_env k cfg with
    | Some v => Some v
    | None => e0 !! k
    end.
Proof.
  induction cfg as [|a cfg IH]; intros e0; [reflexivity|].
  cbn [foldl last_env]. rewrite IH.
  destruct (last_env k cfg) as [v|]; [reflexivity|].
  rewrite lookup_union. destruct (envs_of a !! k), (e0 !! k); reflexivity.
Qed.

(** [addcgi] accepts its variadic arguments exactly when they are option
    lists and environment maps, in any number and order, followed by
    processors only; anything else panics, as does an option list or a map
    after a processor.  The options are then the lists joined in the order
    given, the processors are kept in the order given, and a variable has the
    value of the last map that defines it. *)
Theorem addcgi_arguments (args : list Arg) :
  (exists cfg procs r,
     args = cfg ++ (ArgProc <$> procs)
     /\ Forall (fun a => is_config a = true) cfg
     /\ parse_args args parse_start = Done r
     /\ p_opts r = concat (opts_of <$> cfg)
     /\ p_procs r = procs
     /\ forall k, p_envs r !! k = last_env k cfg)
  \/ (parse_args args parse_start = Panicked
      /\ ~ exists cfg procs,
             args = cfg ++ (ArgProc <$> procs)
             /\ Forall (fun a => is_config a = true) cfg).
Proof.
  assert (forall cfg procs, Forall (fun a => is_config a = true) cfg ->
            parse_args (cfg ++ (ArgProc <$> procs)) parse_start =
              Done (mkParsed (concat (opts_of <$> cfg))
                      (foldl (fun e a => envs_of a ∪ e) ∅ cfg) procs
                      (match procs with [] => false | _ => true end))) as Hrun.
  { intros cfg procs Hcfg.
    rewrite parse_args_config by (assumption || reflexivity).
    rewrite parse_args_procs. reflexivity. }
  destruct (parse_args args parse_start) as [r|] eqn:Hr.
  - left. destruct (parse_args_shape _ _ _ Hr) as (cfg & procs & -> & Hcfg & _).
    rewrite (Hrun cfg procs Hcfg) in Hr. injection Hr as <-.
    exists cfg, procs. eexists. split; [reflexivity|]. split; [exact Hcfg|].
    split; [reflexivity|]. split; [reflexivity|]. split; [reflexivity|].
    intros k. cbn [p_envs]. rewrite last_env_foldl. rewrite lookup_empty.
    now destruct (last_env k cfg).
  - right. split; [reflexivity|]. intros (cfg & procs & -> & Hcfg).
    rewrite (Hrun cfg procs Hcfg) in Hr. discriminate.
Qed.

End CgiArguments.

(** ** Building a chain: [Use] *)

Section Using.

Implicit Types (h : gmap addr DefaultProcessor.t) (l : list addr).

Lemma tailof_path l : forall h (p : addr) (fuel : nat),
  path h (Some p) l -> (length l <= fuel)%nat ->
  exists t d, last l = Some t /\ h !! t = Some d /\ DefaultProcessor.next d = None
              /\ Link.tailof fuel p h = Some (Done t).
Proof.
  induction l as [|a l IH]; intros h p fuel Hp Hf; inversion Hp as [|a' d l' Ha Hrest]; subst.
  destruct fuel as [|fuel]; [simpl in Hf; lia|]. cbn [Link.tailof]. rewrite Ha.
  destruct (DefaultProcessor.next d) as [q|] eqn:Hn.
  - inversion Hrest as [|q' dq l'' Hq Hrest']; subst.
    destruct (IH h q fuel Hrest) as (t & dt & Hlast & Hdt & Hnt & Hrun);
      [simpl in Hf |- *; lia|].
    exists t, dt. rewrite last_cons_cons. auto.
  - inversion Hrest; subst. exists a, d. auto.
Qed.

Lemma link_tail_path l h (a p : addr) (fuel : nat) :
  path h (Some a) l -> (length l <= fuel)%nat ->
  exists t d, last l = Some t /\ h !! t = Some d
    /\ Link.link_tail fuel a p h =
         Some (Done (<[t := DefaultProcessor.mk (DefaultProcessor.name d)
                               (DefaultProcessor.timeout d) (Some p)]> h)).
Proof.
  intros Hp Hf. destruct (tailof_path l h a fuel Hp Hf) as (t & d & Hlast & Hd & Hn & Hrun).
  exists t, d. split; [exact Hlast|]. split; [exact Hd|].
  unfold Link.link_tail, Link.Then. now rewrite Hrun, Hd, Hn.
Qed.

Lemma GetTimeout_relink h (t : addr) d (o : option addr) q :
  h !! t = Some d ->
  DefaultProcessor.GetTimeout q
    (<[t := DefaultProcessor.mk (DefaultProcessor.name d) (DefaultProcessor.timeout d) o]> h)
  = DefaultProcessor.GetTimeout q h.
Proof.
  intros Hd. unfold DefaultProcessor.GetTimeout.
  destruct (decide (t = q)) as [<-|Hne];
    [now rewrite lookup_insert_eq, Hd | now rewrite lookup_insert_ne].
Qed.

Lemma paths_insert_other h (t : addr) d' (ps : list addr) (Ls : list (list addr)) :
  Forall2 (fun p L => path h (Some p) L) ps Ls -> t ∉ concat Ls ->
  Forall2 (fun p L => path (<[t := d']> h) (Some p) L) ps Ls.
Proof.
  induction 1 as [|p L ps Ls Hp _ IH]; intros Hn; [constructor|].
  cbn [concat] in Hn. apply not_elem_of_app in Hn as [HnL Hn].
  constructor; [now apply path_insert_other | now apply IH].
Qed.

Lemma chain_up_paths (fuel : nat) (a0 : addr) (rest : list addr) :
  forall (Ls : list (list addr)) h (prev : addr) (A Lp : list addr),
    path h (Some a0) (A ++ Lp) -> path h (Some prev) Lp ->
    Forall2 (fun p L => path h (Some p) L) rest Ls ->
    NoDup (A ++ Lp ++ concat Ls) ->
    (length (A ++ Lp ++ concat Ls) <= fuel)%nat ->
    exists h',
      Link.chain_up fuel prev rest h = Some (Done h')
      /\ path h' (Some a0) (A ++ Lp ++ concat Ls)
      /\ (forall o l3, path h o l3 ->
            (forall x, x ∈ l3 -> x ∉ A ++ Lp ++ concat Ls) -> path h' o l3)
      /\ (forall q, DefaultProcessor.GetTimeout q h' = DefaultProcessor.GetTimeout q h).
Proof.
  induction rest as [|p rest IH]; intros Ls h prev A Lp Ha0 Hprev HLs Hnd Hf.
  - inversion HLs; subst. cbn [concat]. rewrite app_nil_r.
    exists h. cbn. repeat split; auto.
  - inversion HLs as [|p' Lq rest' Ls' Hq HLs']; subst. cbn [concat] in *.
    cbn [Link.chain_up].
    destruct (link_tail_path Lp h prev p fuel Hprev) as (t & d & Hlast & Hd & Hrun).
    { rewrite !length_app in Hf. lia. }
    rewrite Hrun.
    assert (t ∈ Lp) as Ht by (now apply last_Some_elem_of).
    assert (forall x, x ∈ Lp -> x ∉ Lq ++ concat Ls') as Hdis.
    { apply NoDup_app in Hnd as (_ & _ & Hnd). now apply NoDup_app in Hnd as (_ & Hdis & _). }
    assert (t ∉ Lq) as HtLq.
    { intros Hin. apply (Hdis t Ht). apply elem_of_app. now left. }
    assert (t ∉ concat Ls') as HtLs.
    { intros Hin. apply (Hdis t Ht). apply elem_of_app. now right. }
    set (h1 := <[t := DefaultProcessor.mk (DefaultProcessor.name d)
                         (DefaultProcessor.timeout d) (Some p)]> h).
    assert (last (A ++ Lp) = Some t) as Hlast'.
    { destruct Lp as [|x Lp]; [discriminate|]. now rewrite last_app_cons. }
    destruct (IH Ls' h1 p (A ++ Lp) Lq) as (h' & Hrun' & Hpath & Hkeep & Htime).
    + now apply (path_append h (A ++ Lp) a0 t p d Lq).
    + now apply path_insert_other.
    + now apply paths_insert_other.
    + now rewrite <- app_assoc.
    + now rewrite <- app_assoc.
    + exists h'. split; [exact Hrun'|]. split; [now rewrite <- app_assoc in Hpath|].
      split.
      * intros o l3 Hl3 Hdis3. apply Hkeep.
        { apply path_insert_other; [exact Hl3|]. intros Hin.
          apply (Hdis3 t Hin). apply elem_of_app. right. apply elem_of_app. now left. }
        { intros x Hx. rewrite <- app_assoc. now apply Hdis3. }
      * intros q. rewrite Htime. now apply GetTimeout_relink.
Qed.

(** [Use] joins chains end to end: on an entry whose chain is [L0], with
    processors that head the chains [Ls], all of them apart from each other,
    it succeeds, and the entry's chain afterwards is [L0] followed by the
    chains of the processors in the order given; the entry keeps its name and
    no timeout changes. *)
Theorem Use_appends_chains (e : BaseEntry.t) h (ps : list addr) (L0 : list addr)
    (Ls : list (list addr)) (fuel : nat) :
  path h (BaseEntry.proc e) L0 ->
  Forall2 (fun p L => path h (Some p) L) ps Ls ->
  ps <> [] ->
  NoDup (L0 ++ concat Ls) ->
  (length (L0 ++ concat Ls) <= fuel)%nat ->
  exists e' h',
    Link.Use fuel e ps h = Some (Done (e', h'))
    /\ path h' (BaseEntry.proc e') (L0 ++ concat Ls)
    /\ BaseEntry.name e' = BaseEntry.name e
    /\ (forall q, DefaultProcessor.GetTimeout q h' = DefaultProcessor.GetTimeout q h).
Proof.
  intros HL0 HLs Hne Hnd Hf.
  destruct HLs as [|p0 Lp0 rest Ls' Hp0 HLs']; [congruence|]. clear Hne.
  cbn [concat] in *.
  assert (Link.Use fuel e (p0 :: rest) h =
            match Link.chain_up fuel p0 rest h with
            | None => None
            | Some Panicked => Some Panicked
            | Some (Done h1) =>
                match BaseEntry.proc e with
                | None => Some (Done (BaseEntry.mk (BaseEntry.name e) (Some p0), h1))
                | Some root =>
                    match Link.link_tail fuel root p0 h1 with
                    | None => None
                    | Some Panicked => Some Panicked
                    | Some (Done h2) => Some (Done (e, h2))
                    end
                end
            end) as ->.
  { unfold Link.Use. destruct rest as [|r rest']; [reflexivity|].
    replace (1 <? Z.of_nat (length (p0 :: r :: rest'))) with true; [reflexivity|].
    symmetry. apply Z.ltb_lt. cbn [length]. lia. }
  assert (NoDup (Lp0 ++ concat Ls')) as Hnd1 by (now apply NoDup_app in Hnd as (_ & _ & ?)).
  destruct (chain_up_paths fuel p0 rest Ls' h p0 [] Lp0) as (h1 & Hrun & Hpath & Hkeep & Htime);
    try assumption.
  { cbn [app]. rewrite length_app in Hf. lia. }
  rewrite Hrun. cbn [app] in Hpath, Hkeep.
  destruct (BaseEntry.proc e) as [root|] eqn:Hproc.
  - assert (path h1 (Some root) L0) as HL1.
    { apply Hkeep; [exact HL0|]. now apply NoDup_app in Hnd as (_ & ? & _). }
    destruct (link_tail_path L0 h1 root p0 fuel HL1) as (t & d & Hlast & Hd & Hrun2).
    { rewrite length_app in Hf. lia. }
    rewrite Hrun2. eexists e, _. split; [reflexivity|]. rewrite Hproc.
    split; [|split; [reflexivity|]].
    + apply (path_append h1 L0 root t p0 d); try assumption.
      apply NoDup_app in Hnd as (_ & Hdis & _). apply Hdis.
      now apply last_Some_elem_of.
    + intros q. rewrite GetTimeout_relink by exact Hd. apply Htime.
  - inversion HL0; subst. eexists _, h1. split; [reflexivity|].
    split; [exact Hpath|]. split; [reflexivity | exact Htime].
Qed.

Lemma next_in_chain h (o : option addr) l (a : addr) :
  path h o l -> a ∈ l -> last l <> Some a ->
  exists b, DefaultProcessor.getnext a h = Some b /\ b ∈ l.
Proof.
  induction 1 as [|b d l Hb Hp IH]; intros Hin Hlast; [now apply elem_of_nil in Hin|].
  destruct (decide (a = b)) as [->|Hne].
  - destruct l as [|c l]; [now cbn in Hlast|].
    inversion Hp as [|c' dc l' Hc Hrest Hnext]; subst.
    exists c. unfold DefaultProcessor.getnext. rewrite Hb. cbn. rewrite <- Hnext.
    split; [reflexivity|]. apply elem_of_cons. right. apply elem_of_cons. now left.
  - apply elem_of_cons in Hin as [?|Hin]; [contradiction|].
    destruct l as [|c l]; [now apply elem_of_nil in Hin|].
    rewrite last_cons_cons in Hlast.
    destruct (IH Hin Hlast) as (y & Hy & Hyin).
    exists y. split; [exact Hy|]. apply elem_of_cons. now right.
Qed.

Lemma finished_in_cycle (C : list addr) : forall (n : nat) h (a : addr) (i : Z),
  (forall x, x ∈ C -> exists y, DefaultProcessor.getnext x h = Some y /\ y ∈ C) ->
  a ∈ C -> BaseEntry.finished n (Some a) i h = false.
Proof.
  induction n as [|n IH]; intros h a i Hclosed Ha; [reflexivity|].
  cbn [BaseEntry.finished]. rewrite SetTimeout_getnext.
  destruct (Hclosed a Ha) as (y & Hy & Hyin). rewrite Hy.
  apply IH; [|exact Hyin]. intros x Hx. rewrite SetTimeout_getnext. now apply Hclosed.
Qed.

Lemma tailof_in_cycle (C : list addr) h :
  (forall x, x ∈ C -> exists y, DefaultProcessor.getnext x h = Some y /\ y ∈ C) ->
  forall (n : nat) (a : addr), a ∈ C -> Link.tailof n a h = None.
Proof.
  intros Hclosed. induction n as [|n IH]; intros a Ha; [reflexivity|].
  cbn [Link.tailof]. destruct (Hclosed a Ha) as (y & Hy & Hyin).
  unfold DefaultProcessor.getnext in Hy.
  destruct (h !! a) as [d|]; [|discriminate]. cbn in Hy. rewrite Hy. now apply IH.
Qed.

Lemma exec_in_cycle (C : list addr) h (code : addr -> Engine.Prog) :
  (forall x, x ∈ C -> exists y, DefaultProcessor.getnext x h = Some y /\ y ∈ C) ->
  (forall x, x ∈ C -> Engine.never_Ends (code x) /\ Engine.calls_RunNext (code x)) ->
  forall (fuel : nat) (prog : Engine.Prog) (st : Engine.Run) (c : addr),
    Engine.cproc st = Some c -> c ∈ C -> stopped (Engine.ctx st) = false ->
    Engine.never_Ends prog ->
    (forall st', Engine.exec h code fuel prog st = Some st' ->
       stopped (Engine.ctx st') = false
       /\ exists c', Engine.cproc st' = Some c' /\ c' ∈ C)
    /\ (Engine.calls_RunNext prog -> Engine.exec h code fuel prog st = None).
Proof.
  intros Hclosed Hcode. induction fuel as [|fuel IHf]; intros prog st c Hc Hin Hs Hne.
  { split; [discriminate | reflexivity]. }
  revert st c Hc Hin Hs Hne.
  induction prog as [|b k IH|t k IH|key v k IH|status k IH|k IH|k IH];
    intros st c Hc Hin Hs Hne; rewrite exec_S.
  - split; [|intros []]. intros st' [= <-]. split; [exact Hs|]. now exists c.
  - now apply (IH _ c).
  - now apply (IH _ c).
  - now apply (IH _ c).
  - destruct Hne.
  - rewrite Hc, Hs. cbn [negb].
    destruct (Hclosed c Hin) as (y & Hy & Hyin). rewrite Hy.
    destruct (Hcode y Hyin) as [Hyn Hyc].
    destruct (IHf (code y)
                (Engine.mkRun (Engine.ctx st) (Engine.data st) (Some y)
                   (Engine.entered st ++ [y])) y eq_refl Hyin Hs Hyn) as [_ Hnone].
    rewrite (Hnone Hyc).
    split; [discriminate | reflexivity].
  - rewrite Hs. now apply (IH false _ c).
Qed.

(** [Use] does not look whether a processor is chained already.  Given a
    processor that is in the entry's own chain, it succeeds and closes the
    chain into a ring: from then on the loop of the entry's [SetTimeout]
    never reaches its end, a further [Use] never returns from [tailof], and a
    request whose processors all pass on with [RunNext] without ending the
    response never comes back from [Exec]. *)
Theorem Use_of_chained_processor_loops (e : BaseEntry.t) h (L0 : list addr) (p : addr)
    (fuel : nat) (code : addr -> Engine.Prog) :
  path h (BaseEntry.proc e) L0 -> p ∈ L0 -> (length L0 <= fuel)%nat ->
  exists h' root,
    Link.Use fuel e [p] h = Some (Done (e, h'))
    /\ BaseEntry.proc e = Some root
    /\ (forall n i, BaseEntry.finished n (BaseEntry.proc e) i h' = false)
    /\ (forall n q, Link.Use n e [q] h' = None)
    /\ ((forall x, x ∈ L0 -> Engine.never_Ends (code x) /\ Engine.calls_RunNext (code x)) ->
        forall n entry_data ps,
          Engine.exec h' code n (code root) (begin_run root entry_data ps) = None).
Proof.
  intros HL0 Hp Hf.
  destruct (BaseEntry.proc e) as [root|] eqn:Hproc;
    [|inversion HL0; subst; now apply elem_of_nil in Hp].
  destruct (link_tail_path L0 h root p fuel HL0 Hf) as (t & d & Hlast & Hd & Hrun).
  set (h' := <[t := DefaultProcessor.mk (DefaultProcessor.name d)
                       (DefaultProcessor.timeout d) (Some p)]> h) in *.
  assert (root ∈ L0) as Hroot by (inversion HL0; subst; apply elem_of_cons; now left).
  assert (forall x, x ∈ L0 ->
            exists y, DefaultProcessor.getnext x h' = Some y /\ y ∈ L0) as Hclosed.
  { intros x Hx. unfold DefaultProcessor.getnext, h'.
    destruct (decide (t = x)) as [<-|Hne].
    - rewrite lookup_insert_eq. cbn. now exists p.
    - rewrite lookup_insert_ne by exact Hne.
      apply (next_in_chain h _ L0 x HL0 Hx). congruence. }
  exists h', root. split; [|split; [reflexivity|split; [|split]]].
  - unfold Link.Use. change (1 <? Z.of_nat (length [p])) with false. cbv iota.
    rewrite Hproc, Hrun. reflexivity.
  - intros n i. now apply (finished_in_cycle L0).
  - intros n q. unfold Link.Use. change (1 <? Z.of_nat (length [q])) with false.
    cbv iota. rewrite Hproc. unfold Link.link_tail. now rewrite (tailof_in_cycle L0 h' Hclosed).
  - intros Hcode n entry_data ps.
    destruct (Hcode root Hroot) as [Hn Hc].
    now apply (exec_in_cycle L0 h' code Hclosed Hcode n (code root) _ root).
Qed.

End Using.

Lemma Use_appends_chains_witness :
  exists e' h',
    Link.Use 3 (BaseEntry.mk "^/report$" (Some 3%nat))
      [1%nat] (<[3%nat := DefaultProcessor.mk "dbtransx" 0 None]> two_processors)
    = Some (Done (e', h'))
    /\ path h' (BaseEntry.proc e') ([3%nat] ++ concat [[1%nat; 2%nat]])
    /\ BaseEntry.name e' = BaseEntry.name (BaseEntry.mk "^/report$" (Some 3%nat))
    /\ (forall q,
          DefaultProcessor.GetTimeout q h'
          = DefaultProcessor.GetTimeout q
              (<[3%nat := DefaultProcessor.mk "dbtransx" 0 None]> two_processors)).
Proof.
  apply (Use_appends_chains (BaseEntry.mk "^/report$" (Some 3%nat))
           (<[3%nat := DefaultProcessor.mk "dbtransx" 0 None]> two_processors)
           [1%nat] [3%nat] [[1%nat; 2%nat]] 3).
  - eapply path_cons; [reflexivity|]. constructor.
  - constructor; [|constructor].
    eapply path_cons; [reflexivity|]. eapply path_cons; [reflexivity|]. constructor.
  - discriminate.
  - cbn. repeat (apply NoDup_cons; split; [rewrite ?elem_of_cons, elem_of_nil; lia|]).
    apply NoDup_nil_2.
  - cbn. lia.
Defined.

Lemma Use_of_chained_processor_loops_witness :
  exists h' root,
    Link.Use 2 entry_at_1 [2%nat] two_processors = Some (Done (entry_at_1, h'))
    /\ BaseEntry.proc entry_at_1 = Some root
    /\ (forall n i, BaseEntry.finished n (BaseEntry.proc entry_at_1) i h' = false)
    /\ (forall n q, Link.Use n entry_at_1 [q] h' = None)
    /\ ((forall x, x ∈ [1%nat; 2%nat] ->
           Engine.never_Ends (logging_code x) /\ Engine.calls_RunNext (logging_code x)) ->
        forall n entry_data ps,
          Engine.exec h' logging_code n (logging_code root)
            (begin_run root entry_data ps) = None).
Proof.
  apply (Use_of_chained_processor_loops entry_at_1 two_processors [1%nat; 2%nat] 2%nat 2
           logging_code).
  - eapply path_cons; [reflexivity|]. eapply path_cons; [reflexivity|]. constructor.
  - apply elem_of_cons. right. apply elem_of_cons. now left.
  - cbn. lia.
Defined.
